(** * Trainable segmentation: multiscale features, fit and predict

    A shallow embedding of [skimage/segmentation/trainable_segmentation.py].

    Conventions of the embedding:
    - Python exceptions are values of [exn]; a call that may raise returns
      [result A], the sum of an exception and a value.
    - Floating-point numbers are idealised as real numbers; the special
      values that [np.log2] produces on non-positive arguments ([-inf],
      [nan]) are kept, because the integer conversion that follows raises
      on them. float64 rounds where the reals do not: the logarithm of a
      number that is not a power of two is rounded, and so the sample
      count and the values of the scale sequence can differ from the ones
      computed here. The statements about the count and the values of
      the scale sequence are therefore made for bounds that are powers
      of two, where float64 does not round.
    - An n-dimensional array is its dtype, its shape and its elements in
      row-major (C) order.
    - Arrays that the code copies and then writes to live in a store, so
      that aliasing is visible. *)

From Stdlib Require Import Reals Lra Lia ZArith List Sorting.Permutation.
From stdpp Require Import base option list gmap sorting.

(** * Python exceptions and results *)

Module Py.

Inductive exn : Type :=
  | ValueError
  | OverflowError
  | TypeError
  | IndexError
  | AxisError
  | AttributeError
  | SystemError
  | NotFittedError.

Definition result (A : Type) : Type := exn + A.

Abbreviation Ok := (@inr exn _).
Abbreviation Raise := (@inl exn _).

Definition bind {A B} (m : result A) (k : A -> result B) : result B :=
  match m with
  | inl e => inl e
  | inr a => k a
  end.

(** Runs the calls of a list from left to right and stops at the first
    one that raises. *)
Fixpoint sequence {A} (l : list (result A)) : result (list A) :=
  match l with
  | [] => Ok []
  | m :: l' =>
      bind m (fun a => bind (sequence l') (fun r => Ok (a :: r)))
  end.

End Py.

Import Py.

Notation "'let!' x ':=' m 'in' k" := (Py.bind m (fun x => k))
  (at level 10, x name, m at level 100, k at level 200).

(** * The part of numpy's float arithmetic that the scale sequence uses *)

Module Np.

Open Scope R_scope.

(** A float64 value: finite (idealised as a real), infinite, or nan. *)
Inductive float : Type :=
  | Fin (r : R)
  | PosInf
  | NegInf
  | NaN.

(** [np.log2]: [-inf] at zero and [nan] below (numpy warns and goes on). *)
Definition log2 (x : R) : float :=
  if Rlt_dec 0 x then Fin (ln x / ln 2)
  else if Req_dec_T x 0 then NegInf
  else NaN.

Definition fsub (a b : float) : float :=
  match a, b with
  | NaN, _ | _, NaN => NaN
  | Fin x, Fin y => Fin (x - y)
  | Fin _, PosInf => NegInf
  | Fin _, NegInf => PosInf
  | PosInf, PosInf => NaN
  | PosInf, _ => PosInf
  | NegInf, NegInf => NaN
  | NegInf, _ => NegInf
  end.

Definition fadd (a b : float) : float :=
  match a, b with
  | NaN, _ | _, NaN => NaN
  | Fin x, Fin y => Fin (x + y)
  | Fin _, PosInf => PosInf
  | Fin _, NegInf => NegInf
  | PosInf, NegInf => NaN
  | PosInf, _ => PosInf
  | NegInf, PosInf => NaN
  | NegInf, _ => NegInf
  end.

(** Python's [int(x)] on a float: truncation toward zero;
    [OverflowError] on an infinity, [ValueError] on nan. *)
Definition trunc (x : R) : Z :=
  if Rle_dec 0 x then Int_part x else (- Int_part (- x))%Z.

Definition py_int (x : float) : result Z :=
  match x with
  | Fin r => Ok (trunc r)
  | PosInf | NegInf => Raise OverflowError
  | NaN => Raise ValueError
  end.

(** [np.linspace(start, stop, num, endpoint=True)]: [num] samples
    [start + i * step] with [step = (stop - start) / (num - 1)]; a single
    sample is [start]; a negative [num] raises. *)
Definition linspace (start stop : R) (num : Z) : result (list R) :=
  if (num <? 0)%Z then Raise ValueError
  else
    let n := Z.to_nat num in
    let step := (stop - start) / INR (n - 1) in
    Ok (map (fun i : nat => start + INR i * step) (seq 0 n)).

(** [np.logspace(start, stop, num, base=2, endpoint=True)] is
    [2 ** linspace(start, stop, num)]. *)
Definition logspace2 (start stop : R) (num : Z) : result (list R) :=
  let! y := linspace start stop num in
  Ok (map (Rpower 2) y).

(** ** Arrays *)

Inductive dtype : Type := float32 | float64 | int64.

Record ndarray (A : Type) : Type := mk_ndarray {
  dtype_of : dtype;
  shape : list nat;
  data : list A
}.
Arguments mk_ndarray {A} _ _ _.
Arguments dtype_of {A} _.
Arguments shape {A} _.
Arguments data {A} _.

(** [np.prod] of a shape. *)
Definition prod (sh : list nat) : nat := fold_right Nat.mul 1%nat sh.

Definition ndim {A} (a : ndarray A) : nat := length (shape a).

(** The elements fill the shape. *)
Definition well_formed {A} (a : ndarray A) : Prop :=
  length (data a) = prod (shape a).

(** Number of elements between two neighbours along axis [ax]. *)
Definition stride (sh : list nat) (ax : nat) : nat := prod (drop (S ax) sh).

(** First differences along axis [ax], as [np.gradient] computes them
    with unit spacing: one-sided at both ends, central in between. *)
Definition gradient_axis (a : ndarray R) (ax : nat) : ndarray R :=
  let n := nth ax (shape a) 0%nat in
  let st := stride (shape a) ax in
  let f := fun i : nat => nth i (data a) 0 in
  mk_ndarray (dtype_of a) (shape a)
    (map (fun i : nat =>
            let k := ((i / st) mod n)%nat in
            if (k =? 0)%nat then f (i + st)%nat - f i
            else if (k =? n - 1)%nat then f i - f (i - st)%nat
            else (f (i + st)%nat - f (i - st)%nat) / 2)
         (seq 0 (length (data a)))).

(** What [np.gradient(a)] returns without an [axis]: the array itself for
    a 1-D input, a list with one array per axis otherwise. *)
Inductive gradients : Type :=
  | GArray (g : ndarray R)
  | GList (gs : list (ndarray R)).

(** [np.gradient] needs two samples along every axis it differentiates. *)
Definition gradient (a : ndarray R) : result gradients :=
  if forallb (fun n => 2 <=? n)%nat (shape a) then
    match shape a with
    | [_] => Ok (GArray (gradient_axis a 0))
    | _ => Ok (GList (map (gradient_axis a) (seq 0 (ndim a))))
    end
  else Raise ValueError.

(** [np.gradient(a, axis=ax)]: the axis is checked first. *)
Definition gradient_along (a : ndarray R) (ax : nat) : result (ndarray R) :=
  match nth_error (shape a) ax with
  | None => Raise AxisError
  | Some n => if (2 <=? n)%nat then Ok (gradient_axis a ax)
              else Raise ValueError
  end.

(** [gs[i]] on the value of [np.gradient(a)]: an element of the list, or
    the 0-d element [g[i]] when the value is a single 1-D array. *)
Definition getitem (gs : gradients) (i : nat) : result (ndarray R) :=
  match gs with
  | GList l =>
      match nth_error l i with
      | Some g => Ok g
      | None => Raise IndexError
      end
  | GArray g =>
      if (i <? prod (shape g))%nat
      then Ok (mk_ndarray (dtype_of g) [] [nth i (data g) 0])
      else Raise IndexError
  end.

(** [np.array(l, dtype=np.float32)] on a list of arrays: the arrays are
    stacked along a new leading axis; the empty list gives shape [(0,)];
    arrays of different shapes are refused. *)
Definition array_float32 (l : list (ndarray R)) : result (ndarray R) :=
  match l with
  | [] => Ok (mk_ndarray float32 [0%nat] [])
  | a :: _ =>
      if forallb (fun b => bool_decide (shape b = shape a)) l
      then Ok (mk_ndarray float32 (length l :: shape a)
                 (concat (map data l)))
      else Raise ValueError
  end.

(** [a[..., c]]: the slice of index [c] along the last axis. *)
Definition channel {A} (a : ndarray A) (c : nat) : ndarray A :=
  let C := List.last (shape a) 0%nat in
  mk_ndarray (dtype_of a) (removelast (shape a))
    (omap (fun i : nat => data a !! (i * C + c)%nat)
          (seq 0 (prod (removelast (shape a))))).

(** [np.ascontiguousarray(a)]: the values and the shape of [a], except
    that the result has at least one axis: a 0-d array becomes an array
    of shape [(1,)]. *)
Definition ascontiguousarray {A} (a : ndarray A) : ndarray A :=
  match shape a with
  | [] => mk_ndarray (dtype_of a) [1%nat] (data a)
  | _ :: _ => a
  end.

End Np.

Import Np.

(** * Feature extraction *)

(** The scikit-image functions that the module imports. Their code is not
    part of this file; the pipeline takes them as an interface. *)
Class Filters : Type := {
  (** [filters.gaussian(img, sigma)] *)
  gaussian : ndarray R -> R -> ndarray R;
  (** [filters.sobel(img)] *)
  sobel : ndarray R -> ndarray R;
  (** [feature.hessian_matrix_eigvals(H_elems)], already split along its
      leading axis, as the tuple unpacking of the caller does. *)
  hessian_matrix_eigvals : list (ndarray R) -> result (list (ndarray R));
  (** [img_as_float32(img)] *)
  img_as_float32 : ndarray R -> ndarray R
}.

(** What the pipeline relies on: the filters keep the shape of the image,
    and the eigenvalue solver turns the [k(k+1)/2] entries of a symmetric
    [k x k] tensor field into [k] arrays of the same shape. *)
Class FiltersSpec (F : Filters) : Prop := {
  gaussian_shape : forall a s, shape (gaussian a s) = shape a;
  sobel_shape : forall a, shape (sobel a) = shape a;
  img_as_float32_shape : forall a, shape (img_as_float32 a) = shape a;
  hessian_matrix_eigvals_shape : forall (sh : list nat) elems,
    sh <> [] ->
    length elems = (length sh * (length sh + 1) / 2)%nat ->
    Forall (fun e => shape e = sh) elems ->
    exists out, hessian_matrix_eigvals elems = Ok out /\
                length out = length sh /\
                Forall (fun e => shape e = sh) out
}.

(** The execution environment: which parallel backend was importable, and
    the pool size used when [num_workers] is [None]. *)
Record Env : Type := {
  has_dask : bool;
  default_workers : nat
}.

Module Features.

(** [itertools.combinations_with_replacement(range(n), 2)] *)
Definition combinations_with_replacement2 (n : nat) : list (nat * nat) :=
  flat_map (fun i => map (pair i) (seq i (n - i))) (seq 0 n).

(** The scale sequence of [_mutiscale_basic_features_singlechannel]:
    [np.logspace(log2 sigma_min, log2 sigma_max, num, base=2)[::-1]] with
    [num = int(log2 sigma_max - log2 sigma_min + 1)]. The conversion to
    [int] is evaluated before [logspace] is called, so both logarithms are
    finite when [logspace] runs. The arithmetic is the one of the reals;
    it is the one of float64 on the special values and for bounds that
    are powers of two. *)
Definition sigmas (sigma_min sigma_max : R) : result (list R) :=
  let lo := log2 sigma_min in
  let hi := log2 sigma_max in
  let! num := py_int (fadd (fsub hi lo) (Fin 1)) in
  match lo, hi with
  | Fin start, Fin stop =>
      let! l := logspace2 start stop num in
      Ok (reverse l)
  | _, _ => Raise ValueError
  end.

Section WithFilters.
Context {F : Filters}.

Definition _texture_filter (gaussian_filtered : ndarray R)
  : result (list (ndarray R)) :=
  let! H_elems :=
    Py.sequence
      (map (fun '(ax0, ax1) =>
              let! gs := gradient gaussian_filtered in
              let! g := getitem gs ax0 in
              gradient_along g ax1)
           (combinations_with_replacement2 (ndim gaussian_filtered))) in
  hessian_matrix_eigvals H_elems.

Definition _singlescale_basic_features_singlechannel
    (img : ndarray R) (sigma : R) (intensity edges texture : bool)
  : result (list (ndarray R)) :=
  let results := [] in
  let gaussian_filtered := gaussian img sigma in
  let results :=
    if intensity then results ++ [gaussian_filtered] else results in
  let results :=
    if edges then results ++ [sobel gaussian_filtered] else results in
  if texture then
    let! t := _texture_filter gaussian_filtered in
    Ok (results ++ t)
  else Ok results.

(** ** The worker pool

    Tasks are started in submission order and at most [workers] of them
    run at a time, so the next task to finish is one of the first
    [workers] tasks that have not finished yet. Which one is not known:
    [choices] is the scheduler's sequence of picks. With one worker the
    completion order is the submission order. *)
Fixpoint completion_order (workers : nat) (choices : list nat)
    (pending : list nat) (n : nat) : list nat :=
  match n with
  | O => []
  | S n' =>
      let running := S (Nat.min (workers - 1) (length pending - 1)) in
      let k := (hd 0%nat choices mod running)%nat in
      match pending !! k with
      | Some t =>
          t :: completion_order workers (tl choices) (delete k pending) n'
      | None => []
      end
  end.

(** The results of the tasks, stored under the index of their task as
    they complete. *)
Definition finished {A} (tasks : list (result A)) (order : list nat)
  : gmap nat (result A) :=
  foldl (fun done i =>
           match tasks !! i with
           | Some r => <[i := r]> done
           | None => done
           end) ∅ order.

(** [list(ex.map(f, args))]: the results are read in submission order, so
    the exception of the first failing task, in that order, is the one
    raised. *)
Definition executor_map {A} (workers : nat) (choices : list nat)
    (tasks : list (result A)) : result (list A) :=
  let n := length tasks in
  let done := finished tasks (completion_order workers choices (seq 0 n) n) in
  Py.sequence (omap (fun i => done !! i) (seq 0 n)).

(** [dask.compute] on the delayed tasks: the results come back in argument order; a
    failing task raises as soon as it completes. *)
Definition dask_compute {A} (workers : nat) (choices : list nat)
    (tasks : list (result A)) : result (list A) :=
  let n := length tasks in
  let order := completion_order workers choices (seq 0 n) n in
  let done := finished tasks order in
  let! _ := Py.sequence (omap (fun i => tasks !! i) order) in
  Py.sequence (omap (fun i => done !! i) (seq 0 n)).

(** [ThreadPoolExecutor(max_workers=num_workers)] refuses a pool size
    that is not positive. *)
Definition ThreadPoolExecutor (env : Env) (num_workers : option Z)
  : result nat :=
  match num_workers with
  | None => Ok (default_workers env)
  | Some w => if (w <=? 0)%Z then Raise ValueError else Ok (Z.to_nat w)
  end.

(** The threads of dask's scheduler for [num_workers]. The scheduler
    reads [num_workers or default], so a count of 0 stands for the
    default; a negative pool size is refused. *)
Definition dask_threads (env : Env) (num_workers : option Z)
  : result nat :=
  match num_workers with
  | None => Ok (default_workers env)
  | Some w =>
      if (w =? 0)%Z then Ok (default_workers env)
      else if (w <? 0)%Z then Raise ValueError
      else Ok (Z.to_nat w)
  end.

(** With dask the scheduler, and with it the pool, is started only when
    there is a task to compute; [ThreadPoolExecutor] is created before
    the tasks are looked at. *)
Definition _mutiscale_basic_features_singlechannel (env : Env)
    (img : ndarray R) (intensity edges texture : bool)
    (sigma_min sigma_max : R) (num_workers : option Z)
    (choices : list nat) : result (list (ndarray R)) :=
  let img := ascontiguousarray (img_as_float32 img) in
  let! sigmas := sigmas sigma_min sigma_max in
  let tasks :=
    map (fun s =>
           _singlescale_basic_features_singlechannel
             img s intensity edges texture) sigmas in
  let! out_sigmas :=
    if has_dask env then
      match tasks with
      | [] => Ok []
      | _ :: _ =>
          let! pool := dask_threads env num_workers in
          dask_compute pool choices tasks
      end
    else
      let! ex := ThreadPoolExecutor env num_workers in
      executor_map ex choices tasks in
  Ok (concat out_sigmas).

(** [choices c] are the scheduler's picks during the call for channel
    [c]. *)
Definition multiscale_basic_features (env : Env) (image : ndarray R)
    (multichannel intensity edges texture : bool)
    (sigma_min sigma_max : R) (num_workers : option Z)
    (choices : nat -> list nat) : result (ndarray R) :=
  let! features :=
    if (3 <=? ndim image)%nat && multichannel then
      let! all_results :=
        Py.sequence
          (map (fun dim =>
                  _mutiscale_basic_features_singlechannel env
                    (channel image dim) intensity edges texture
                    sigma_min sigma_max num_workers (choices dim))
               (seq 0 (List.last (shape image) 0%nat))) in
      Ok (concat all_results)
    else
      _mutiscale_basic_features_singlechannel env
        image intensity edges texture
        sigma_min sigma_max num_workers (choices 0%nat) in
  array_float32 features.

End WithFilters.
End Features.

(** ** The sequential reference

    What the ordering contract of the aggregation describes: channels in
    ascending order, for each channel the scales in the order of the
    scale sequence, for each scale the bundle of the single-scale
    extractor; no worker pool. *)
Module Reference.
Section WithFilters.
Context {F : Filters}.

Definition channels (image : ndarray R) (multichannel : bool)
  : list (ndarray R) :=
  if (3 <=? ndim image)%nat && multichannel
  then map (channel image) (seq 0 (List.last (shape image) 0%nat))
  else [image].

Definition channel_features (img : ndarray R)
    (intensity edges texture : bool) (sigma_min sigma_max : R)
  : result (list (ndarray R)) :=
  let! scales := Features.sigmas sigma_min sigma_max in
  let! bundles :=
    Py.sequence
      (map (fun s =>
              Features._singlescale_basic_features_singlechannel
                (ascontiguousarray (img_as_float32 img)) s
                intensity edges texture) scales) in
  Ok (concat bundles).

Definition features_sequential (image : ndarray R)
    (multichannel intensity edges texture : bool)
    (sigma_min sigma_max : R) : result (ndarray R) :=
  let! per_channel :=
    Py.sequence
      (map (fun img =>
              channel_features img intensity edges texture
                sigma_min sigma_max)
           (channels image multichannel)) in
  array_float32 (concat per_channel).

End WithFilters.
End Reference.

(** * The eigenvalues of the Hessian *)

Module Hessian.

Open Scope R_scope.

(** Modelled from the spec: [feature.hessian_matrix_eigvals] is called by
    [_texture_filter] but its code is not among the sources. For a
    symmetric 2 x 2 matrix with diagonal [a], [b] and off-diagonal [c]
    the specification gives the closed form
    [(a+b)/2 +- sqrt(((a-b)/2)^2 + c^2)]. The order of the two values is
    not the one of the specification: the library function that the
    source calls documents, and returns, the eigenvalues in decreasing
    order, so the larger value comes first. *)
Definition eigvals2 (a c b : R) : list R :=
  let mid := (a + b) / 2 in
  let rad := sqrt (((a - b) / 2) ^ 2 + c ^ 2) in
  [mid + rad; mid - rad].

Section Solver.

(** [np.linalg.eigvalsh] on one symmetric [k x k] matrix, given by the
    [k(k+1)/2] entries of its upper triangle in row-major order. numpy
    returns the [k] eigenvalues in ascending order; the statements that
    depend on this say so. *)
Variable eigvalsh : nat -> list R -> list R.

(** Modelled from the spec: the eigenvalues at one pixel, largest first.
    Three entries are those of a 2 x 2 matrix, which has the closed form;
    for every other size the values of [eigvalsh] are reversed. *)
Definition pixel_eigvals (k : nat) (entries : list R) : list R :=
  match entries with
  | [a; c; b] => eigvals2 a c b
  | _ => reverse (eigvalsh k entries)
  end.

(** The entries of the matrix at pixel [p], in the order of the input
    arrays: [(0,0), (0,1), ..., (k-1,k-1)]. *)
Definition entries_at (H_elems : list (ndarray R)) (p : nat) : list R :=
  map (fun e => nth p (data e) 0) H_elems.

(** Modelled from the spec: the solver takes the [k(k+1)/2] entry arrays
    of shape [S] and returns [k] arrays of shape [S]; array [j] holds, at
    every pixel, the [j]-th largest eigenvalue of that pixel's matrix. *)
Definition HessianEigenSolver (H_elems : list (ndarray R))
  : result (list (ndarray R)) :=
  match H_elems with
  | [] => Raise ValueError
  | e0 :: _ =>
      let k := ndim e0 in
      if bool_decide (length H_elems = (k * (k + 1) / 2)%nat)
         && forallb (fun e => bool_decide (shape e = shape e0)) H_elems
      then
        Ok (map (fun j : nat =>
                   mk_ndarray (dtype_of e0) (shape e0)
                     (map (fun p : nat =>
                             nth j (pixel_eigvals k (entries_at H_elems p)) 0)
                          (seq 0 (prod (shape e0)))))
                (seq 0 k))
      else Raise ValueError
  end.

End Solver.
End Hessian.

(** An instance of the filter interface: smoothing and edge detection
    that leave the image as it is, and the eigenvalue solver above. It
    shows that the assumptions of [FiltersSpec] can be met. *)
Definition plain_filters : Filters := {|
  gaussian := fun a _ => a;
  sobel := fun a => a;
  hessian_matrix_eigvals := Hessian.HessianEigenSolver (fun _ e => e);
  img_as_float32 := fun a => mk_ndarray float32 (shape a) (data a)
|}.

(** * Pixel classification *)

(** A classifier object in the style of scikit-learn, with its state of
    type [St]: [fit(X, y)] trains it in place, [predict(X)] returns one
    class per row of [X]. [X] has one row per sample. *)
Class Classifier (St : Type) : Type := {
  clf_fit : St -> list (list R) -> list Z -> result St;
  clf_predict : St -> list (list R) -> result (list Z)
}.

Module Segmenter.

(** ** The store

    The label array given to [fit_segmenter], the array it returns and
    the classifier are objects; a location is an index into the store. *)
Inductive pyobj (St : Type) : Type :=
  | IntArray (a : ndarray Z)
  | ClassifierObj (c : St).
Arguments IntArray {St} a.
Arguments ClassifierObj {St} c.

Abbreviation loc := nat.

(** A computation that reads and updates the store and may raise; the
    store survives an exception. *)
Definition Run (St A : Type) : Type :=
  list (pyobj St) -> result A * list (pyobj St).

Definition ret {St A} (a : A) : Run St A := fun st => (Ok a, st).

Definition raise {St A} (e : exn) : Run St A := fun st => (Raise e, st).

Definition lift {St A} (r : result A) : Run St A := fun st => (r, st).

Definition bind {St A B} (m : Run St A) (k : A -> Run St B) : Run St B :=
  fun st =>
    match m st with
    | (inl e, st') => (Raise e, st')
    | (inr a, st') => k a st'
    end.

Notation "'let*' x ':=' m 'in' k" := (bind m (fun x => k))
  (at level 10, x name, m at level 100, k at level 200).

(** Reading a label array. Something that is not an array cannot be
    compared with a number. Every reference of a Python program is live,
    so the last case is there for totality only. *)
Definition read_array {St} (l : loc) : Run St (ndarray Z) :=
  fun st =>
    match st !! l with
    | Some (IntArray a) => (Ok a, st)
    | Some (ClassifierObj _) => (Raise TypeError, st)
    | None => (Raise SystemError, st)
    end.

(** Reading the classifier behind a reference; an array has neither
    [fit] nor [predict]. *)
Definition read_classifier {St} (l : loc) : Run St St :=
  fun st =>
    match st !! l with
    | Some (ClassifierObj c) => (Ok c, st)
    | Some (IntArray _) => (Raise AttributeError, st)
    | None => (Raise SystemError, st)
    end.

Definition write {St} (l : loc) (v : pyobj St) : Run St unit :=
  fun st => (Ok tt, <[l := v]> st).

(** A new object gets a location that was not in use. *)
Definition alloc {St} (v : pyobj St) : Run St loc :=
  fun st => (Ok (length st), st ++ [v]).

(** ** Indexing with a boolean mask *)

(** The feature vector of pixel [p]: entry [p] of each of the feature
    planes of a stack of shape [(F, *S)]. *)
Definition pixel_row (features : ndarray R) (p : nat) : list R :=
  match shape features with
  | [] => []
  | n_features :: sh =>
      map (fun f : nat => nth (f * prod sh + p) (data features) 0%R)
          (seq 0 n_features)
  end.

(** The positions at which the mask holds, in row-major order. *)
Definition positions (mask : list bool) : list nat :=
  List.filter (fun p => nth p mask false) (seq 0 (length mask)).

(** [features[:, mask].T] for a mask of shape [mshape]: one row per
    selected pixel. The mask must have the shape of the features after
    their first axis. (numpy also takes a mask that covers the leading
    axes of a stack with further trailing axes; what it selects then is
    not a matrix of samples. That use is outside the model, which
    refuses it like any other mismatch.) *)
Definition mask_rows (features : ndarray R) (mshape : list nat)
    (mask : list bool) : result (list (list R)) :=
  match shape features with
  | [] => Raise IndexError
  | _ :: sh =>
      if bool_decide (sh = mshape)
      then Ok (map (pixel_row features) (positions mask))
      else Raise IndexError
  end.

(** Writes [vals], in order, to the positions of [dst] at which the mask
    holds. *)
Fixpoint scatter (mask : list bool) (dst vals : list Z) : list Z :=
  match mask, dst with
  | true :: mask', _ :: dst' =>
      match vals with
      | v :: vals' => v :: scatter mask' dst' vals'
      | [] => dst
      end
  | false :: mask', x :: dst' => x :: scatter mask' dst' vals
  | _, _ => dst
  end.

(** [dst[mask] = vals] for a 1-D [vals]: as many values as the mask
    selects, or a single value that is broadcast. *)
Definition setitem_mask (dst : list Z) (mask : list bool) (vals : list Z)
  : result (list Z) :=
  let count := length (positions mask) in
  if (length vals =? count)%nat then Ok (scatter mask dst vals)
  else
    match vals with
    | [v] => Ok (scatter mask dst (replicate count v))
    | _ => Raise ValueError
    end.

(** [labels > 0] and [labels == 0] *)
Definition positive_mask (labels : ndarray Z) : list bool :=
  map (fun x => (0 <? x)%Z) (data labels).

Definition zero_mask (labels : ndarray Z) : list bool :=
  map (fun x => (x =? 0)%Z) (data labels).

(** The number of selected positions before [p]. *)
Definition rank (mask : list bool) (p : nat) : nat :=
  length (positions (take p mask)).

Section WithClassifier.
Context {St : Type} {C : Classifier St}.

Definition fit_segmenter (labels : loc) (features : ndarray R) (clf : loc)
  : Run St (loc * loc) :=
  let* lab := read_array labels in
  let* training_data :=
    lift (mask_rows features (shape lab) (positive_mask lab)) in
  let training_labels := List.filter (fun x => (0 <? x)%Z) (data lab) in
  let* c := read_classifier clf in
  let* c := lift (clf_fit c training_data training_labels) in
  let* _ := write clf (ClassifierObj c) in
  let* data_ := lift (mask_rows features (shape lab) (zero_mask lab)) in
  let* predicted_labels := lift (clf_predict c data_) in
  let* output := alloc (IntArray lab) in
  let* filled :=
    lift (setitem_mask (data lab) (zero_mask lab) predicted_labels) in
  let* _ :=
    write output (IntArray (mk_ndarray (dtype_of lab) (shape lab) filled)) in
  ret (output, clf).

(** The product of an empty tuple of sizes is the float [1.0], which
    [reshape] does not take as a size: a stack without a spatial axis is
    refused with [TypeError]. *)
Definition predict_segmenter (features : ndarray R) (clf : loc)
  : Run St (ndarray Z) :=
  match shape features with
  | [] => raise IndexError
  | [_] => raise TypeError
  | _ :: sh =>
      let features_ :=
        map (pixel_row features) (seq 0 (prod sh)) in
      let* c := read_classifier clf in
      match clf_predict c features_ with
      | inl NotFittedError => raise NotFittedError
      | inl e => raise e
      | inr predicted_labels =>
          if (length predicted_labels =? prod sh)%nat
          then ret (mk_ndarray int64 sh predicted_labels)
          else raise ValueError
      end
  end.

End WithClassifier.
End Segmenter.

(** * The segmenter object *)

Module TrainableSegmenter.

Import Segmenter.

(** The value of [self.features_func] once it is set: the module's own
    [multiscale_basic_features], or a function of the caller. The
    function receives what the method was given as [image], which is
    [None] when [fit] is called without an image. *)
Inductive features_function : Type :=
  | Default
  | Custom (f : option (ndarray R) -> result (ndarray R)).

(** The attributes of the object. [segmented_image] exists after the
    first successful [fit] only. *)
Record self : Type := mk_self {
  clf : loc;
  features_func : option features_function;
  features : option (ndarray R);
  segmented_image : option loc
}.

(** A method updates the object and the store, also when it raises. *)
Definition Method (St A : Type) : Type :=
  self -> list (pyobj St) -> result A * (self * list (pyobj St)).

Section Methods.
Context {F : Filters} {St : Type} {C : Classifier St}.
Variable env : Env.
Variable choices : nat -> list nat.

(** [f(image)]; the default function is called with its default
    arguments and reads [image.ndim] first, which [None] does not have. *)
Definition call_features_func (f : features_function)
    (image : option (ndarray R)) : result (ndarray R) :=
  match f with
  | Custom f => f image
  | Default =>
      match image with
      | None => Raise AttributeError
      | Some image =>
          Features.multiscale_basic_features env image
            true true true true (1 / 2)%R 16%R None choices
      end
  end.

Definition __init__ (clf : loc) (features_func : option features_function)
  : self :=
  mk_self clf features_func None None.

Definition compute_features (image : option (ndarray R)) : Method St unit :=
  fun s st =>
    let f := default Default (features_func s) in
    let s := mk_self (clf s) (Some f) (features s) (segmented_image s) in
    match call_features_func f image with
    | inl e => (Raise e, (s, st))
    | inr feats =>
        (Ok tt, (mk_self (clf s) (features_func s) (Some feats)
                   (segmented_image s), st))
    end.

Definition fit (labels : loc) (image : option (ndarray R))
  : Method St unit :=
  fun s st =>
    let '(r, (s, st)) :=
      match features s with
      | None => compute_features image s st
      | Some _ => (Ok tt, (s, st))
      end in
    match r, features s with
    | inl e, _ => (Raise e, (s, st))
    | inr _, None => (Raise TypeError, (s, st))
    | inr _, Some feats =>
        match fit_segmenter labels feats (clf s) st with
        | (inl e, st) => (Raise e, (s, st))
        | (inr (output, _), st) =>
            (Ok tt, (mk_self (clf s) (features_func s) (features s)
                       (Some output), st))
        end
    end.

Definition predict (image : option (ndarray R))
  : Method St (ndarray Z) :=
  fun s st =>
    let f := default Default (features_func s) in
    let s := mk_self (clf s) (Some f) (features s) (segmented_image s) in
    match call_features_func f image with
    | inl e => (Raise e, (s, st))
    | inr feats =>
        let '(r, st) := predict_segmenter feats (clf s) st in
        (r, (s, st))
    end.

End Methods.
End TrainableSegmenter.

(** A classifier for examples: its state says whether it was fitted;
    once fitted it assigns the class [k] to every sample. *)
Definition constant_classifier (k : Z) : Classifier bool := {|
  clf_fit := fun _ _ _ => Ok true;
  clf_predict := fun fitted X =>
    if fitted then Ok (map (fun _ => k) X) else Raise NotFittedError
|}.

(** The fitted classifier [c] gives every sample that equals a training
    sample the label of that training sample. *)
Definition reproduces_training {St} {C : Classifier St}
    (c : St) (X : list (list R)) (y : list Z) : Prop :=
  forall X' predicted, clf_predict c X' = Ok predicted ->
    forall (i j : nat) row,
      X !! i = Some row -> X' !! j = Some row -> predicted !! j = y !! i.

(** * Statements about the scale sequence *)

Definition log2r (x : R) : R := (ln x / ln 2)%R.

(** Consecutive values of [l] have the ratio [q]. *)
Definition geometric (q : R) (l : list R) : Prop :=
  forall (i : nat) x y, l !! i = Some x -> l !! S i = Some y -> x = (q * y)%R.

Definition descending (l : list R) : Prop :=
  forall (i : nat) x y, l !! i = Some x -> l !! S i = Some y -> (y < x)%R.

(** * Statements about the worker pool *)

(** All failing tasks raise the same exception. *)
Definition uniform_errors {A} (tasks : list (result A)) : Prop :=
  forall e e', Raise e ∈ tasks -> Raise e' ∈ tasks -> e = e'.

(** A pool size that [ThreadPoolExecutor] accepts. *)
Definition valid_workers (num_workers : option Z) : Prop :=
  match num_workers with
  | None => True
  | Some w => (0 < w)%Z
  end.

(** * Statements about the segmenter object *)

Section Train.
Import Segmenter TrainableSegmenter.
Context {St : Type} {C : Classifier St}.

(** What [fit] does once the features are known. *)
Definition train (labels : loc) (feats : ndarray R) (s : self)
    (st : list (pyobj St)) : result unit * (self * list (pyobj St)) :=
  match fit_segmenter labels feats (clf s) st with
  | (inl e, st') => (Raise e, (s, st'))
  | (inr (output, _), st') =>
      (Ok tt, (mk_self (clf s) (features_func s) (features s)
                 (Some output), st'))
  end.

End Train.

(** * Inputs for the examples *)

Definition example_env : Env := {| has_dask := false; default_workers := 4 |}.

(** A 1 x 2 image and a 2 x 2 image. *)
Definition image_1x2 : ndarray R := mk_ndarray float64 [1; 2]%nat [0; 0]%R.
Definition image_2x2 : ndarray R :=
  mk_ndarray float64 [2; 2]%nat [0; 1; 1; 0]%R.

(** Two pixels, the first one labelled with class 1; one feature plane. *)
Definition example_labels : ndarray Z := mk_ndarray int64 [2]%nat [1; 0]%Z.
Definition example_features : ndarray R :=
  mk_ndarray float32 [1; 2]%nat [1; 2]%R.

(** The label array at location 0 and a classifier that was not fitted
    at location 1. *)
Definition example_store : list (Segmenter.pyobj bool) :=
  [Segmenter.IntArray example_labels; Segmenter.ClassifierObj false].

(** A feature function of the caller: the image itself as the only
    feature plane. *)
Definition identity_features : TrainableSegmenter.features_function :=
  TrainableSegmenter.Custom
    (fun image =>
       match image with
       | None => Raise AttributeError
       | Some a => Ok (mk_ndarray float32 (1%nat :: shape a) (data a))
       end).

Definition image_a : ndarray R := mk_ndarray float64 [2]%nat [1; 2]%R.
Definition image_b : ndarray R := mk_ndarray float64 [2]%nat [3; 4]%R.

(** * Statements about the size of the feature stack *)

(** The number of arrays that one scale contributes for an image of [k]
    axes. *)
Definition bundle_size (intensity edges texture : bool) (k : nat) : nat :=
  ((if intensity then 1 else 0) + (if edges then 1 else 0)
   + (if texture then k else 0))%nat.

(** The shape of a stack of [n] arrays of shape [sh]. *)
Definition stacked_shape (n : nat) (sh : list nat) : list nat :=
  if (n =? 0)%nat then [0%nat] else n :: sh.

(** A stack of one feature plane of three pixels. *)
Definition example_features_3 : ndarray R :=
  mk_ndarray float32 [1; 3]%nat [1; 2; 3]%R.

(** A classifier for examples whose [predict], once fitted, gives the
    same answer whatever the samples are. *)
Definition answering_classifier (answer : result (list Z))
  : Classifier bool := {|
  clf_fit := fun _ _ _ => Ok true;
  clf_predict := fun fitted _ =>
    if fitted then answer else Raise NotFittedError
|}.

(** Three pixels, the first one labelled with class 1, at location 0 of
    a store with a classifier that was not fitted at location 1. *)
Definition example_labels_3 : ndarray Z :=
  mk_ndarray int64 [3]%nat [1; 0; 0]%Z.
Definition example_store_3 : list (Segmenter.pyobj bool) :=
  [Segmenter.IntArray example_labels_3; Segmenter.ClassifierObj false].

(** An environment in which dask was importable. *)
Definition dask_env : Env := {| has_dask := true; default_workers := 4 |}.

(** An image without axes, as [np.array(7.0)]. *)
Definition image_0d : ndarray R := mk_ndarray float64 [] [7]%R.

(** A 2 x 2 image with two channels. *)
Definition image_2x2x2 : ndarray R :=
  mk_ndarray float64 [2; 2; 2]%nat [0; 1; 1; 0; 1; 0; 0; 1]%R.





(** * Proofs *)

Import Features Segmenter.

(** ** The scale sequence *)

Section ScaleSequence.
Local Open Scope R_scope.


Lemma ln2_pos : 0 < ln 2.
Proof. rewrite <- ln_1. apply ln_increasing; lra. Qed.

Lemma log2_pos x : 0 < x -> log2 x = Fin (log2r x).
Proof. intros H. unfold log2. destruct (Rlt_dec 0 x); [done | contradiction]. Qed.

Lemma log2r_le x y : 0 < x -> x <= y -> log2r x <= log2r y.
Proof.
  intros Hx Hxy. unfold log2r. pose proof ln2_pos.
  apply Rmult_le_compat_r; [left; by apply Rinv_0_lt_compat|].
  destruct Hxy as [Hlt | ->]; [left; apply ln_increasing; lra | lra].
Qed.

Lemma log2r_lt x y : 0 < x -> x < y -> log2r x < log2r y.
Proof.
  intros Hx Hxy. unfold log2r. pose proof ln2_pos.
  apply Rmult_lt_compat_r; [by apply Rinv_0_lt_compat|].
  apply ln_increasing; lra.
Qed.

Lemma Rpower2_log2r x : 0 < x -> Rpower 2 (log2r x) = x.
Proof.
  intros Hx. unfold Rpower, log2r. pose proof ln2_pos.
  replace (ln x / ln 2 * ln 2) with (ln x) by (field; lra).
  by apply exp_ln.
Qed.

Lemma log2r_Rpower2 y : log2r (Rpower 2 y) = y.
Proof.
  unfold log2r, Rpower. rewrite ln_exp. pose proof ln2_pos. field; lra.
Qed.

Lemma trunc_nonneg x : 0 <= x -> trunc x = Int_part x.
Proof. intros H. unfold trunc. destruct (Rle_dec 0 x); [done| contradiction]. Qed.

Lemma Int_part_spec x z : IZR z <= x < IZR z + 1 -> Int_part x = z.
Proof.
  intros [H1 H2]. unfold Int_part.
  assert (up x = (z + 1)%Z); [| lia].
  symmetry. apply tech_up; rewrite plus_IZR; lra.
Qed.

Lemma Int_part_bounds x : IZR (Int_part x) <= x < IZR (Int_part x) + 1.
Proof. destruct (base_Int_part x). lra. Qed.

Lemma trunc_spec x z :
  (0 <= z)%Z -> IZR z <= x < IZR z + 1 -> trunc x = z.
Proof.
  intros Hz Hx. rewrite trunc_nonneg; [by apply Int_part_spec|].
  apply IZR_le in Hz. lra.
Qed.

Lemma trunc_small x : -1 < x < 1 -> trunc x = 0%Z.
Proof.
  intros Hx. unfold trunc. destruct (Rle_dec 0 x).
  - apply Int_part_spec. simpl. lra.
  - destruct (Req_dec x 0); [lra|].
    rewrite (Int_part_spec (- x) 0); [done | simpl; lra].
Qed.

Lemma trunc_neg x : x <= -1 -> (trunc x < 0)%Z.
Proof.
  intros Hx. unfold trunc. destruct (Rle_dec 0 x); [lra|].
  pose proof (Int_part_bounds (- x)) as [H1 H2].
  assert (0 < IZR (Int_part (- x)) + 1) by lra.
  assert (1 <= Int_part (- x))%Z; [| lia].
  apply le_IZR. 
  destruct (Z_lt_le_dec (Int_part (-x)) 1) as [Hlt|]; [| by apply IZR_le].
  assert (Int_part (- x) <= 0)%Z as Hle by lia. apply IZR_le in Hle. lra.
Qed.

Lemma sigmas_valid smin smax :
  0 < smin -> smin <= smax ->
  let n := Z.to_nat (Int_part (log2r smax - log2r smin) + 1) in
  sigmas smin smax =
    Ok (reverse (map (fun i : nat =>
                    Rpower 2 (log2r smin + INR i *
                        ((log2r smax - log2r smin) / INR (n - 1))))
                 (seq 0 n))).
Proof.
  intros Hmin Hle n. unfold sigmas.
  rewrite !log2_pos by lra. simpl.
  pose proof (log2r_le smin smax Hmin Hle) as Hd.
  remember (log2r smax - log2r smin) as d eqn:Ed.
  pose proof (Int_part_bounds d) as [Hb1 Hb2].
  assert (0 <= Int_part d)%Z as Hnn.
  { apply le_IZR. destruct (Z_lt_le_dec (Int_part d) 0) as [Hlt|]; [|by apply IZR_le].
    assert (Int_part d <= -1)%Z as Hx by lia. apply IZR_le in Hx. lra. }
  rewrite (trunc_spec (d + 1) (Int_part d + 1)); [| lia | rewrite plus_IZR; lra].
  unfold logspace2, linspace. simpl.
  destruct (Z.ltb_spec (Int_part d + 1) 0); [lia|]. simpl.
  subst n. rewrite map_map. subst d. reflexivity.
Qed.



Lemma sigmas_lookup smin smax (i : nat) :
  0 < smin -> smin <= smax ->
  let n := Z.to_nat (Int_part (log2r smax - log2r smin) + 1) in
  (i < n)%nat ->
  exists l, sigmas smin smax = Ok l /\ length l = n /\
    l !! i = Some (Rpower 2 (log2r smin + INR (n - S i) *
                     ((log2r smax - log2r smin) / INR (n - 1)))).
Proof.
  intros Hmin Hle n Hi. eexists. split; [by apply sigmas_valid|].
  fold n. split.
  - by rewrite length_reverse, length_map, length_seq.
  - rewrite reverse_lookup by (by rewrite length_map, length_seq).
    rewrite length_map, length_seq, list_lookup_fmap.
    rewrite lookup_seq_lt by lia. done.
Qed.

Lemma Rpower2_pos y : 0 < Rpower 2 y.
Proof. unfold Rpower. apply exp_pos. Qed.

Lemma Rpower2_lt x y : x < y -> Rpower 2 x < Rpower 2 y.
Proof. intros. apply Rpower_lt; lra. Qed.

Lemma Rpower2_inj x y : Rpower 2 x = Rpower 2 y -> x = y.
Proof.
  intros H. destruct (Rtotal_order x y) as [Hlt | [-> | Hgt]]; [| done |].
  - apply Rpower2_lt in Hlt. lra.
  - apply Rpower2_lt in Hgt. lra.
Qed.

Lemma Rpower2_1 : Rpower 2 1 = 2.
Proof. apply Rpower_1. lra. Qed.

Lemma ratio_as_power smin smax (k : R) :
  0 < smin -> 0 < smax ->
  Rpower 2 ((log2r smax - log2r smin) * k) = Rpower (smax / smin) k.
Proof.
  intros Hmin Hmax. unfold Rpower, log2r. pose proof ln2_pos. f_equal.
  unfold Rdiv. rewrite ln_mult, ln_Rinv by (try apply Rinv_0_lt_compat; lra).
  field. lra.
Qed.


Lemma scale_count smin smax :
  0 < smin -> smin <= smax ->
  let d := log2r smax - log2r smin in
  let n := Z.to_nat (Int_part d + 1) in
  (1 <= n)%nat /\ INR (n - 1) <= d < INR (n - 1) + 1.
Proof.
  intros Hmin Hle d n.
  pose proof (log2r_le smin smax Hmin Hle) as Hd.
  pose proof (Int_part_bounds d) as [Hb1 Hb2].
  assert (0 <= d) as Hd0 by (unfold d; lra).
  assert (0 <= Int_part d)%Z as Hnn.
  { apply le_IZR. destruct (Z_lt_le_dec (Int_part d) 0) as [Hlt|];
      [| by apply IZR_le].
    assert (Int_part d <= -1)%Z as Hx by lia. apply IZR_le in Hx. lra. }
  assert (n - 1 = Z.to_nat (Int_part d))%nat as -> by (unfold n; lia).
  rewrite INR_IZR_INZ, Z2Nat.id by done.
  split; [unfold n; lia | lra].
Qed.

Lemma scale_step_bounds (d : R) (k : nat) :
  (1 <= k)%nat -> INR k <= d < INR k + 1 -> 1 <= d / INR k < 2.
Proof.
  intros Hk [H1 H2].
  assert (1 <= INR k) as Hk1 by (replace 1 with (INR 1) by done; by apply le_INR).
  assert (0 < / INR k) as Hi by (apply Rinv_0_lt_compat; lra).
  assert (INR k * / INR k = 1) as Hone by (apply Rinv_r; lra).
  unfold Rdiv. split; nra.
Qed.

Lemma Rpower2_2 : Rpower 2 2 = 4.
Proof.
  replace 2 with (1 + 1) at 2 by lra.
  rewrite Rpower_plus, Rpower2_1. lra.
Qed.

Lemma Rpower2_le x y : x <= y -> Rpower 2 x <= Rpower 2 y.
Proof. intros [H | ->]; [left; by apply Rpower2_lt | lra]. Qed.

Lemma log2r_mult_pow x (k : nat) :
  0 < x -> log2r (x * 2 ^ k) = log2r x + INR k.
Proof.
  intros Hx. unfold log2r. pose proof ln2_pos.
  rewrite ln_mult, ln_pow by (try apply pow_lt; lra). field. lra.
Qed.

Lemma Rpower2_bounds s : 1 <= s < 2 -> 2 <= Rpower 2 s < 4.
Proof.
  intros [H1 H2]. split.
  - etransitivity; [| by apply Rpower2_le]. rewrite Rpower2_1. lra.
  - eapply Rlt_le_trans; [by apply Rpower2_lt|]. rewrite Rpower2_2. lra.
Qed.

Lemma Rpower2_eq_2 s : Rpower 2 s = 2 <-> s = 1.
Proof.
  split; [| intros ->; apply Rpower2_1].
  intros H. apply Rpower2_inj. by rewrite Rpower2_1.
Qed.

Lemma sigmas_1_4 : sigmas 1 4 = Ok [4; 2; 1].
Proof.
  assert (log2r 1 = 0) as H1 by (unfold log2r; rewrite ln_1; lra).
  assert (log2r 4 = 2) as H4.
  { replace 4 with (1 * 2 ^ 2) by lra. rewrite log2r_mult_pow, H1 by lra.
    simpl. lra. }
  rewrite sigmas_valid by lra. rewrite H1, H4.
  replace (2 - 0) with 2 by lra.
  rewrite (Int_part_spec 2 2) by (simpl; lra).
  simpl. unfold reverse. simpl. repeat f_equal.
  - replace (0 + (1 + 1) * (2 / (1 + 1))) with 2 by lra. apply Rpower2_2.
  - replace (0 + 1 * (2 / (1 + 1))) with 1 by lra. apply Rpower2_1.
  - replace (0 + 0 * (2 / (1 + 1))) with 0 by lra. apply Rpower_O. lra.
Qed.

Lemma sigmas_2_2 : sigmas 2 2 = Ok [2].
Proof.
  rewrite sigmas_valid by lra.
  replace (log2r 2 - log2r 2) with 0 by lra.
  rewrite (Int_part_spec 0 0) by (simpl; lra).
  simpl. unfold reverse. simpl. repeat f_equal.
  rewrite Rmult_0_l, Rplus_0_r. apply Rpower2_log2r. lra.
Qed.

Lemma sigmas_spacing smin smax :
  0 < smin -> smin <= smax ->
  let n := Z.to_nat (Int_part (log2r smax - log2r smin) + 1) in
  let q := Rpower (smax / smin) (/ INR (n - 1)) in
  exists l, sigmas smin smax = Ok l /\
    length l = n /\ (1 <= n)%nat /\
    last l = Some smin /\
    ((2 <= n)%nat -> head l = Some smax /\ 2 <= q < 4 /\
       (q = 2 <-> smax = smin * 2 ^ (n - 1))) /\
    geometric q l /\ descending l.
Proof.
  intros Hmin Hle n q.
  destruct (scale_count smin smax Hmin Hle) as [Hn Hd]. fold n in Hn, Hd.
  set (d := log2r smax - log2r smin) in *.
  set (step := d / INR (n - 1)).
  assert (Rpower 2 step = q) as Hq.
  { unfold step, q, Rdiv. apply ratio_as_power; lra. }
  assert ((2 <= n)%nat -> 1 <= step < 2) as Hstep.
  { intros H2. apply scale_step_bounds; [lia | done]. }
  assert (forall i : nat, (i < n)%nat ->
            exists l, sigmas smin smax = Ok l /\ length l = n /\
              l !! i = Some (Rpower 2 (log2r smin + INR (n - S i) * step)))
    as Hlook by (intros i Hi; by apply sigmas_lookup).
  destruct (Hlook 0%nat) as (l & Hl & Hlen & _); [lia|].
  assert (forall i : nat, (i < n)%nat ->
            l !! i = Some (Rpower 2 (log2r smin + INR (n - S i) * step)))
    as Hli.
  { intros i Hi. destruct (Hlook i Hi) as (l' & Hl' & _ & Hi').
    rewrite Hl in Hl'. by injection Hl' as ->. }
  clear Hlook.
  assert (geometric q l) as Hgeo.
  { intros i x y Hx Hy.
    assert (S i < n)%nat as Hi by (rewrite <- Hlen; by eapply lookup_lt_Some).
    rewrite Hli in Hx, Hy by lia. injection Hx as <-. injection Hy as <-.
    replace (n - S i)%nat with (S (n - S (S i))) by lia.
    rewrite S_INR, <- Hq, <- Rpower_plus. f_equal. lra. }
  exists l. repeat split; try done.
  - rewrite last_lookup, Hlen, Hli by lia.
    replace (n - S (Nat.pred n))%nat with 0%nat by lia. simpl.
    rewrite Rmult_0_l, Rplus_0_r. f_equal. by apply Rpower2_log2r.
  - rewrite head_lookup, Hli by lia. f_equal.
    replace (n - 1)%nat with (n - 1)%nat by done.
    assert (1 <= INR (n - 1)).
    { replace 1 with (INR 1) by done. apply le_INR. lia. }
    replace (log2r smin + INR (n - 1) * step) with (log2r smax);
      [apply Rpower2_log2r; lra|].
    unfold step, d. field. lra.
  - rewrite <- Hq. apply Rpower2_bounds. by apply Hstep.
  - rewrite <- Hq. apply Rpower2_bounds. by apply Hstep.
  - intros Hq2. rewrite <- Hq in Hq2. apply Rpower2_eq_2 in Hq2.
    assert (1 <= INR (n - 1)).
    { replace 1 with (INR 1) by done. apply le_INR. lia. }
    assert (log2r smax = log2r smin + INR (n - 1)) as Hb.
    { unfold step, d in Hq2.
      apply (Rmult_eq_compat_r (INR (n - 1))) in Hq2.
      unfold Rdiv in Hq2. rewrite Rmult_assoc, Rinv_l in Hq2 by lra. lra. }
    rewrite <- (Rpower2_log2r smax), Hb, Rpower_plus, Rpower2_log2r by lra.
    rewrite Rpower_pow by lra. done.
  - intros Hs. rewrite <- Hq. apply Rpower2_eq_2.
    assert (1 <= INR (n - 1)).
    { replace 1 with (INR 1) by done. apply le_INR. lia. }
    unfold step, d. rewrite Hs, log2r_mult_pow by done. field. lra.
  - intros i x y Hx Hy.
    assert (S i < n)%nat as Hi by (rewrite <- Hlen; by eapply lookup_lt_Some).
    rewrite (Hgeo i x y Hx Hy).
    assert (0 < y).
    { rewrite Hli in Hy by lia. injection Hy as <-. apply Rpower2_pos. }
    assert (2 <= q).
    { rewrite <- Hq. apply Rpower2_bounds. apply Hstep. lia. }
    nra.
Qed.

Lemma log2r_1 : log2r 1 = 0.
Proof. unfold log2r. rewrite ln_1. lra. Qed.

Lemma log2r_2 : log2r 2 = 1.
Proof. unfold log2r. pose proof ln2_pos. field. lra. Qed.

Lemma log2r_4 : log2r 4 = 2.
Proof.
  replace 4 with (1 * 2 ^ 2) by lra.
  rewrite log2r_mult_pow, log2r_1 by lra. simpl. lra.
Qed.

Lemma log2r_half : log2r (/ 2) = -1.
Proof. unfold log2r. pose proof ln2_pos. rewrite ln_Rinv by lra. field. lra. Qed.

Lemma sigmas_1_3 : sigmas 1 3 = Ok [3; 1].
Proof.
  pose proof (log2r_lt 2 3 ltac:(lra) ltac:(lra)) as H2.
  pose proof (log2r_lt 3 4 ltac:(lra) ltac:(lra)) as H4.
  rewrite log2r_2 in H2. rewrite log2r_4 in H4.
  rewrite sigmas_valid by lra. rewrite log2r_1.
  rewrite (Int_part_spec (log2r 3 - 0) 1) by (simpl; lra).
  simpl. unfold reverse. simpl. repeat f_equal.
  - replace (0 + 1 * ((log2r 3 - 0) / 1)) with (log2r 3) by lra.
    apply Rpower2_log2r. lra.
  - rewrite Rmult_0_l, Rplus_0_r. apply Rpower_O. lra.
Qed.

Lemma sigmas_1_3half : sigmas 1 (3 / 2) = Ok [1].
Proof.
  pose proof (log2r_lt 1 (3/2) ltac:(lra) ltac:(lra)) as H1.
  pose proof (log2r_lt (3/2) 2 ltac:(lra) ltac:(lra)) as H2.
  rewrite log2r_1 in H1. rewrite log2r_2 in H2.
  rewrite sigmas_valid by lra. rewrite log2r_1.
  rewrite (Int_part_spec (log2r (3/2) - 0) 0) by (simpl; lra).
  simpl. unfold reverse. simpl. repeat f_equal.
  rewrite Rmult_0_l, Rplus_0_r. apply Rpower_O. lra.
Qed.

(** Bounds that are not valid. *)

Lemma sigmas_empty smin smax :
  0 < smin -> smin / 4 < smax -> smax < smin -> sigmas smin smax = Ok [].
Proof.
  intros Hmin Hlo Hhi. unfold sigmas.
  rewrite !log2_pos by lra. simpl.
  pose proof (log2r_lt smax smin ltac:(lra) Hhi) as H1.
  pose proof (log2r_lt (smin / 4) smax ltac:(lra) Hlo) as H2.
  assert (log2r (smin / 4) = log2r smin - 2) as E.
  { pose proof (log2r_mult_pow (smin / 4) 2 ltac:(lra)) as E.
    replace (smin / 4 * 2 ^ 2) with smin in E by (simpl; lra).
    simpl in E. lra. }
  rewrite trunc_small by lra. done.
Qed.

Lemma sigmas_negative_count smin smax :
  0 < smin -> 0 < smax -> smax <= smin / 4 ->
  sigmas smin smax = Raise ValueError.
Proof.
  intros Hmin Hmax Hhi. unfold sigmas.
  rewrite !log2_pos by lra. simpl.
  pose proof (log2r_le smax (smin / 4) Hmax Hhi) as H1.
  assert (log2r (smin / 4) = log2r smin - 2) as E.
  { pose proof (log2r_mult_pow (smin / 4) 2 ltac:(lra)) as E.
    replace (smin / 4 * 2 ^ 2) with smin in E by (simpl; lra).
    simpl in E. lra. }
  pose proof (trunc_neg (log2r smax - log2r smin + 1) ltac:(lra)) as Hneg.
  unfold logspace2, linspace.
  destruct (Z.ltb_spec (trunc (log2r smax - log2r smin + 1)) 0); [done | lia].
Qed.

Lemma Int_part_INR (m : nat) : Int_part (INR m) = Z.of_nat m.
Proof. apply Int_part_spec. rewrite <- INR_IZR_INZ. lra. Qed.

Lemma sigmas_doubling_closed (smin : R) (m : nat) :
  0 < smin ->
  sigmas smin (smin * 2 ^ m)
  = Ok (reverse (map (fun i : nat => smin * 2 ^ i) (seq 0 (S m)))).
Proof.
  intros Hmin.
  assert (smin <= smin * 2 ^ m) as Hle.
  { assert (1 <= 2 ^ m) by (apply pow_R1_Rle; lra). nra. }
  rewrite sigmas_valid by done.
  rewrite log2r_mult_pow by done.
  replace (log2r smin + INR m - log2r smin) with (INR m) by lra.
  rewrite Int_part_INR.
  replace (Z.to_nat (Z.of_nat m + 1)) with (S m) by lia.
  do 2 f_equal. apply map_ext_in. intros i Hi. apply in_seq in Hi.
  replace (S m - 1)%nat with m by lia.
  assert (INR i * (INR m / INR m) = INR i) as ->.
  { destruct m as [|m].
    - assert (i = 0%nat) as -> by lia. simpl. lra.
    - assert (0 < INR (S m)) by (apply lt_0_INR; lia). field. lra. }
  rewrite Rpower_plus, Rpower2_log2r, Rpower_pow by lra. done.
Qed.

Lemma powerRZ_2_pos (a : Z) : 0 < powerRZ 2 a.
Proof. apply powerRZ_lt. lra. Qed.

Lemma powerRZ_2_add (a : Z) (m : nat) :
  powerRZ 2 (a + Z.of_nat m) = powerRZ 2 a * 2 ^ m.
Proof. rewrite powerRZ_add by lra. by rewrite <- pow_powerRZ. Qed.

Lemma sigmas_powers_of_two (a : Z) (m : nat) :
  sigmas (powerRZ 2 a) (powerRZ 2 (a + Z.of_nat m))
  = Ok (map (fun i : nat => powerRZ 2 (a + Z.of_nat (m - i))) (seq 0 (S m))).
Proof.
  rewrite powerRZ_2_add, sigmas_doubling_closed by apply powerRZ_2_pos.
  f_equal. apply list_eq. intros i.
  destruct (decide (i < S m)%nat) as [Hi|Hi].
  - rewrite reverse_lookup by (rewrite length_map, length_seq; lia).
    rewrite length_map, length_seq, !list_lookup_fmap.
    rewrite !lookup_seq_lt by lia. simpl.
    replace (m - 0 - i)%nat with (m - i)%nat by lia.
    by rewrite powerRZ_2_add.
  - rewrite !lookup_ge_None_2; [done|..];
      rewrite ?length_reverse, length_map, length_seq; lia.
Qed.

Lemma powers_of_two_geometric (a : Z) (m : nat) :
  geometric 2
    (map (fun i : nat => powerRZ 2 (a + Z.of_nat (m - i))) (seq 0 (S m))) /\
  descending
    (map (fun i : nat => powerRZ 2 (a + Z.of_nat (m - i))) (seq 0 (S m))).
Proof.
  assert (forall (i : nat) x y,
    map (fun i : nat => powerRZ 2 (a + Z.of_nat (m - i))) (seq 0 (S m)) !! i
      = Some x ->
    map (fun i : nat => powerRZ 2 (a + Z.of_nat (m - i))) (seq 0 (S m)) !! S i
      = Some y -> x = 2 * y /\ 0 < y) as H.
  { intros i x y Hx Hy.
    assert (S i < S m)%nat as Hi.
    { apply lookup_lt_Some in Hy. by rewrite length_map, length_seq in Hy. }
    rewrite list_lookup_fmap, lookup_seq_lt in Hx, Hy by lia.
    simpl in Hx, Hy. injection Hx as <-. injection Hy as <-.
    split; [| apply powerRZ_2_pos].
    replace (m - i)%nat with (S (m - S i)) by lia.
    rewrite !powerRZ_2_add. simpl. lra. }
  split; intros i x y Hx Hy; destruct (H i x y Hx Hy); lra.
Qed.

Lemma log2r_powers (a : Z) (m : nat) :
  log2r (powerRZ 2 (a + Z.of_nat m)) - log2r (powerRZ 2 a) = INR m.
Proof.
  rewrite powerRZ_2_add, log2r_mult_pow by apply powerRZ_2_pos. lra.
Qed.


Lemma sigmas_nonpositive_exact smin smax :
  (smin < 0 \/ smax < 0 \/ (smin = 0 /\ smax = 0) ->
   sigmas smin smax = Raise ValueError) /\
  ((smin = 0 /\ 0 < smax) \/ (0 < smin /\ smax = 0) ->
   sigmas smin smax = Raise OverflowError).
Proof.
  unfold sigmas, log2.
  split; intros H;
    destruct (Rlt_dec 0 smin), (Rlt_dec 0 smax);
    try destruct (Req_dec_T smin 0); try destruct (Req_dec_T smax 0);
    try reflexivity; exfalso; lra.
Qed.

Lemma powerRZ_2_half (a : Z) : powerRZ 2 (a - 1) = powerRZ 2 a / 2.
Proof.
  replace (a - 1)%Z with (a + -1)%Z by lia.
  rewrite powerRZ_add by lra. simpl. lra.
Qed.

Lemma powerRZ_2_quarter (a b : Z) :
  (b <= a - 2)%Z -> powerRZ 2 b <= powerRZ 2 a / 4.
Proof.
  intros Hb. replace (powerRZ 2 a / 4) with (powerRZ 2 (a + -2)).
  - rewrite !powerRZ_Rpower by lra. apply Rpower2_le, IZR_le. lia.
  - rewrite powerRZ_add by lra. simpl. lra.
Qed.

Lemma sigmas_powers_reversed (a b : Z) :
  (b < a)%Z ->
  (b = (a - 1)%Z -> sigmas (powerRZ 2 a) (powerRZ 2 b) = Ok []) /\
  ((b <= a - 2)%Z -> sigmas (powerRZ 2 a) (powerRZ 2 b) = Raise ValueError).
Proof.
  intros Hlt. pose proof (powerRZ_2_pos a) as Ha.
  pose proof (powerRZ_2_pos b) as Hb. split.
  - intros ->. rewrite powerRZ_2_half. apply sigmas_empty; lra.
  - intros Hle. apply sigmas_negative_count; [done | done |].
    by apply powerRZ_2_quarter.
Qed.


End ScaleSequence.

Lemma completion_order_perm w ch pending :
  completion_order w ch pending (length pending) ≡ₚ pending.
Proof.
  remember (length pending) as n eqn:Hn.
  revert ch pending Hn. induction n as [|n IH]; intros ch pending Hn.
  - destruct pending; [done | discriminate].
  - cbn [completion_order].
    set (k := (hd 0%nat ch `mod` S (Nat.min (w - 1) (length pending - 1)))%nat).
    assert (k < length pending)%nat as Hk.
    { pose proof (Nat.mod_upper_bound (hd 0%nat ch)
                    (S (Nat.min (w - 1) (length pending - 1)))
                    ltac:(lia)).
      unfold k. lia. }
    destruct (lookup_lt_is_Some_2 pending k Hk) as [t Ht]. rewrite Ht.
    rewrite IH.
    + symmetry. by apply delete_Permutation.
    + rewrite length_delete; [lia | by eexists].
Qed.

Lemma completion_order_seq w ch n :
  completion_order w ch (seq 0 n) n ≡ₚ seq 0 n.
Proof.
  pose proof (completion_order_perm w ch (seq 0 n)) as H.
  by rewrite length_seq in H.
Qed.

Lemma omap_lookup_seq_app {A} (l pre : list A) :
  omap (fun i => (pre ++ l) !! i) (seq (length pre) (length l)) = l.
Proof.
  revert pre. induction l as [|x l IH]; intros pre; [done|].
  change (omap (λ i : nat, (pre ++ x :: l) !! i)
            (seq (length pre) (length (x :: l))))
    with (match (pre ++ x :: l) !! length pre with
          | Some y => y :: omap (λ i : nat, (pre ++ x :: l) !! i)
                             (seq (S (length pre)) (length l))
          | None => omap (λ i : nat, (pre ++ x :: l) !! i)
                      (seq (S (length pre)) (length l))
          end).
  rewrite list_lookup_middle by done.
  f_equal. specialize (IH (pre ++ [x])).
  rewrite length_app, Nat.add_1_r, <- app_assoc in IH. done.
Qed.

Lemma omap_lookup_seq {A} (l : list A) :
  omap (fun i => l !! i) (seq 0 (length l)) = l.
Proof. apply (omap_lookup_seq_app l []). Qed.

Lemma finished_lookup {A} (tasks : list (result A)) (order : list nat)
    (acc : gmap nat (result A)) (i : nat) :
  foldl (fun done i =>
           match tasks !! i with
           | Some r => <[i := r]> done
           | None => done
           end) acc order !! i
  = if decide (i ∈ order) then
      match tasks !! i with Some r => Some r | None => acc !! i end
    else acc !! i.
Proof.
  revert acc. induction order as [|j order IH]; intros acc.
  - cbn [foldl]. by rewrite decide_False by set_solver.
  - cbn [foldl]. rewrite IH. destruct (decide (i ∈ order)) as [Hin|Hnin].
    + rewrite decide_True by set_solver.
      destruct (tasks !! i) eqn:Hi; [done|].
      destruct (tasks !! j) eqn:Hj; [|done].
      rewrite lookup_insert_ne; [done | congruence].
    + destruct (decide (i = j)) as [->|Hne].
      * rewrite decide_True by set_solver.
        destruct (tasks !! j); [by rewrite lookup_insert_eq | done].
      * rewrite decide_False by (rewrite elem_of_cons; tauto).
        destruct (tasks !! j); [by rewrite lookup_insert_ne | done].
Qed.

Lemma gather_finished {A} (tasks : list (result A)) (order : list nat) :
  order ≡ₚ seq 0 (length tasks) ->
  omap (fun i => finished tasks order !! i) (seq 0 (length tasks)) = tasks.
Proof.
  intros Hperm.
  transitivity (omap (fun i => tasks !! i) (seq 0 (length tasks)));
    [| apply omap_lookup_seq].
  apply list_omap_ext, Forall2_same_length_lookup_2; [done|].
  intros i x y Hx Hy. rewrite Hx in Hy. injection Hy as <-.
  apply lookup_seq in Hx as [-> Hi]. simpl.
  unfold finished. rewrite finished_lookup, lookup_empty.
  rewrite decide_True; [by destruct (tasks !! i)|].
  rewrite Hperm. apply elem_of_seq. lia.
Qed.

Lemma executor_map_sequential {A} w ch (tasks : list (result A)) :
  executor_map w ch tasks = Py.sequence tasks.
Proof.
  unfold executor_map. rewrite gather_finished; [done|].
  apply completion_order_seq.
Qed.


Lemma sequence_Raise {A} (l : list (result A)) e :
  Py.sequence l = Raise e -> Raise e ∈ l.
Proof.
  induction l as [|m l IH]; [done|]. simpl.
  destruct m as [e'|a]; simpl.
  - intros [= ->]. left.
  - destruct (Py.sequence l); simpl; [|done].
    intros [= ->]. right. by apply IH.
Qed.

Lemma sequence_Ok {A} (l : list (result A)) v :
  Py.sequence l = Ok v -> l = map Ok v.
Proof.
  revert v. induction l as [|m l IH]; intros v; simpl.
  - by intros [= <-].
  - destruct m as [e'|a]; simpl; [done|].
    destruct (Py.sequence l) eqn:E; simpl; [done|].
    intros [= <-]. simpl. f_equal. by apply IH.
Qed.

Lemma sequence_map_Ok {A} (v : list A) : Py.sequence (map Ok v) = Ok v.
Proof. induction v as [|a v IH]; simpl; [done|]. by rewrite IH. Qed.

Lemma dask_compute_sequential {A} w ch (tasks : list (result A)) :
  uniform_errors tasks ->
  dask_compute w ch tasks = Py.sequence tasks.
Proof.
  intros Hu. unfold dask_compute.
  pose proof (completion_order_seq w ch (length tasks)) as Hperm.
  rewrite gather_finished by done.
  set (order := completion_order w ch (seq 0 (length tasks)) (length tasks))
    in *.
  assert (omap (fun i => tasks !! i) order ≡ₚ tasks) as Hp.
  { rewrite Hperm. by rewrite omap_lookup_seq. }
  destruct (Py.sequence tasks) as [e|v] eqn:Hs.
  - destruct (Py.sequence (omap _ order)) as [e'|v'] eqn:Hs'; simpl.
    + apply sequence_Raise in Hs, Hs'. rewrite Hp in Hs'.
      by rewrite (Hu e e').
    + apply sequence_Raise in Hs. apply sequence_Ok in Hs'.
      rewrite <- Hp, Hs' in Hs. apply list_elem_of_fmap in Hs as (? & ? & ?).
      done.
  - apply sequence_Ok in Hs.
    destruct (Py.sequence (omap _ order)) as [e'|v'] eqn:Hs'; simpl.
    + apply sequence_Raise in Hs'. rewrite Hp, Hs in Hs'.
      apply list_elem_of_fmap in Hs' as (? & ? & ?). done.
    + done.
Qed.

Lemma sequence_map_ok {A B} (f : A -> result B) (g : A -> B) (l : list A) :
  (forall x, x ∈ l -> f x = Ok (g x)) ->
  Py.sequence (map f l) = Ok (map g l).
Proof.
  induction l as [|x l IH]; intros H; [done|].
  simpl. rewrite H by left. simpl. rewrite IH; [done|].
  intros y Hy. apply H. by right.
Qed.

Lemma elem_of_combinations (n a b : nat) :
  (a, b) ∈ combinations_with_replacement2 n -> (a <= b < n)%nat.
Proof.
  unfold combinations_with_replacement2.
  rewrite list_elem_of_In, in_flat_map. intros (i & Hi & Hab).
  apply in_map_iff in Hab as (j & [= <- <-] & Hj).
  apply in_seq in Hi, Hj. lia.
Qed.

Lemma even_triangle (m : nat) : (2 * (m * (m + 1) / 2) = m * (m + 1))%nat.
Proof.
  assert ((m * (m + 1)) mod 2 = 0)%nat as H.
  { induction m as [|m IH]; [done|].
    replace (S m * (S m + 1))%nat with (m * (m + 1) + (m + 1) * 2)%nat by lia.
    by rewrite Nat.Div0.mod_add. }
  pose proof (Nat.div_mod_eq (m * (m + 1)) 2). lia.
Qed.

Lemma length_combinations_from (a m : nat) :
  length (flat_map (fun i => map (pair i) (seq i (a + m - i))) (seq a m))
  = (m * (m + 1) / 2)%nat.
Proof.
  revert a. induction m as [|m IH]; intros a; [done|].
  cbn [seq flat_map]. rewrite length_app, length_map, length_seq.
  assert (flat_map (fun i => map (pair i) (seq i (a + S m - i))) (seq (S a) m)
          = flat_map (fun i => map (pair i) (seq i (S a + m - i))) (seq (S a) m))
    as -> by (apply flat_map_ext; intros i; by replace (a + S m)%nat with (S a + m)%nat by lia).
  rewrite IH.
  pose proof (even_triangle m). pose proof (even_triangle (S m)). nia.
Qed.

Lemma length_combinations (n : nat) :
  length (combinations_with_replacement2 n) = (n * (n + 1) / 2)%nat.
Proof. apply (length_combinations_from 0 n). Qed.

Lemma shape_gradient_axis a ax : shape (gradient_axis a ax) = shape a.
Proof. done. Qed.

Lemma ascontiguousarray_axes {A} (a : ndarray A) :
  shape a <> [] -> ascontiguousarray a = a.
Proof. unfold ascontiguousarray. by destruct (shape a). Qed.

Lemma shape_ascontiguousarray {A} (a : ndarray A) :
  shape (ascontiguousarray a) = match shape a with [] => [1%nat] | sh => sh end.
Proof. unfold ascontiguousarray. by destruct (shape a) eqn:E. Qed.

Section WithFilters.
Context {F : Filters} {FS : FiltersSpec F}.

Lemma texture_filter_ok (g : ndarray R) :
  (2 <= ndim g)%nat -> Forall (fun n => 2 <= n)%nat (shape g) ->
  exists out, _texture_filter g = Ok out /\
    length out = ndim g /\ Forall (fun e => shape e = shape g) out.
Proof.
  intros Hk Hall. unfold _texture_filter.
  assert (gradient g = Ok (GList (map (gradient_axis g) (seq 0 (ndim g)))))
    as Hg.
  { unfold gradient. rewrite (proj2 (forallb_forall _ _)).
    - unfold ndim in Hk. destruct (shape g) as [|? [|? ?]]; simpl in Hk; [lia|lia|done].
    - intros n Hn. apply Nat.leb_le.
      rewrite Forall_forall in Hall. apply Hall. by apply list_elem_of_In. }
  rewrite (sequence_map_ok _
             (fun '(ax0, ax1) => gradient_axis (gradient_axis g ax0) ax1)).
  - simpl. apply (hessian_matrix_eigvals_shape (shape g)).
    + unfold ndim in Hk. destruct (shape g); [simpl in Hk; lia | done].
    + by rewrite length_map, length_combinations.
    + apply Forall_forall. intros e He.
      apply list_elem_of_In, in_map_iff in He as ([a b] & <- & _). done.
  - intros [a b] Hab. apply elem_of_combinations in Hab.
    rewrite Hg. simpl.
    rewrite nth_error_map, (nth_error_nth' _ 0%nat) by (rewrite length_seq; lia).
    rewrite seq_nth by lia. simpl.
    unfold gradient_along. rewrite shape_gradient_axis.
    rewrite (nth_error_nth' _ 0%nat) by (unfold ndim in *; lia).
    rewrite (proj2 (Nat.leb_le _ _)); [done|].
    rewrite Forall_forall in Hall. apply Hall, list_elem_of_In, nth_In.
    unfold ndim in *; lia.
Qed.


Lemma texture_filter_elems (g : ndarray R) :
  (2 <= ndim g)%nat -> Forall (fun n => 2 <= n)%nat (shape g) ->
  _texture_filter g
  = hessian_matrix_eigvals
      (map (fun '(ax0, ax1) => gradient_axis (gradient_axis g ax0) ax1)
           (combinations_with_replacement2 (ndim g))).
Proof.
  clear FS.
  intros Hk Hall. unfold _texture_filter.
  assert (gradient g = Ok (GList (map (gradient_axis g) (seq 0 (ndim g)))))
    as Hg.
  { unfold gradient. rewrite (proj2 (forallb_forall _ _)).
    - unfold ndim in Hk.
      destruct (shape g) as [|? [|? ?]]; simpl in Hk; [lia|lia|done].
    - intros n Hn. apply Nat.leb_le.
      rewrite Forall_forall in Hall. apply Hall. by apply list_elem_of_In. }
  rewrite (sequence_map_ok _
             (fun '(ax0, ax1) => gradient_axis (gradient_axis g ax0) ax1));
    [done|].
  intros [a b] Hab. apply elem_of_combinations in Hab.
  rewrite Hg. simpl.
  rewrite nth_error_map, (nth_error_nth' _ 0%nat) by (rewrite length_seq; lia).
  rewrite seq_nth by lia. simpl.
  unfold gradient_along. rewrite shape_gradient_axis.
  rewrite (nth_error_nth' _ 0%nat) by (unfold ndim in *; lia).
  rewrite (proj2 (Nat.leb_le _ _)); [done|].
  rewrite Forall_forall in Hall. apply Hall, list_elem_of_In, nth_In.
  unfold ndim in *; lia.
Qed.

(** Whether and how the texture filter fails depends on the shape of its
    input only. *)
Lemma texture_filter_raise (g g' : ndarray R) e e' :
  shape g = shape g' ->
  _texture_filter g = Raise e -> _texture_filter g' = Raise e' -> e = e'.
Proof.
  intros Hsh. unfold _texture_filter, ndim, gradient. rewrite <- Hsh.
  destruct (shape g) as [|n [|n2 sh]] eqn:Es.
  - simpl. congruence.
  - cbn [length combinations_with_replacement2 seq flat_map map app
         Py.sequence forallb].
    destruct (2 <=? n)%nat eqn:En; simpl.
    + unfold gradient_along. simpl. rewrite <- Hsh, Es.
      assert ((0 <? prod [n])%nat = true) as ->.
      { apply Nat.ltb_lt. apply Nat.leb_le in En. simpl. lia. }
      simpl. congruence.
    + congruence.
  - destruct (forallb _ (n :: n2 :: sh)) eqn:Eall.
    + intros Hr _. exfalso.
      destruct (texture_filter_ok g) as (out & Hok & _).
      * unfold ndim. rewrite Es. simpl. lia.
      * rewrite Es. apply Forall_forall. intros x Hx.
        apply Nat.leb_le. eapply forallb_forall in Eall; [done|].
        by apply list_elem_of_In.
      * unfold _texture_filter, ndim, gradient in Hok.
        rewrite Es, Eall in Hok. congruence.
    + cbn [length combinations_with_replacement2 seq flat_map map app
         Py.sequence Nat.sub]. simpl. congruence.
Qed.

Lemma singlescale_raise img s s' i ed t e e' :
  _singlescale_basic_features_singlechannel img s i ed t = Raise e ->
  _singlescale_basic_features_singlechannel img s' i ed t = Raise e' ->
  e = e'.
Proof.
  unfold _singlescale_basic_features_singlechannel.
  destruct t; [| by destruct i, ed].
  destruct (_texture_filter (gaussian img s)) eqn:E1; [| by destruct i, ed].
  destruct (_texture_filter (gaussian img s')) eqn:E2; [| by destruct i, ed].
  simpl. intros [= <-] [= <-].
  eapply texture_filter_raise; [| done..]. by rewrite !gaussian_shape.
Qed.

Lemma singlescale_uniform img sg i ed t :
  uniform_errors
    (map (fun s => _singlescale_basic_features_singlechannel img s i ed t) sg).
Proof.
  intros e e' He He'.
  apply list_elem_of_fmap in He as (s & Hs & _).
  apply list_elem_of_fmap in He' as (s' & Hs' & _).
  by eapply singlescale_raise.
Qed.

End WithFilters.


Section Aggregation.
Context {F : Filters} {FS : FiltersSpec F}.

Lemma mutiscale_sequential env img i e t smin smax nw ch :
  valid_workers nw ->
  _mutiscale_basic_features_singlechannel env img i e t smin smax nw ch
  = Reference.channel_features img i e t smin smax.
Proof.
  intros Hw.
  unfold _mutiscale_basic_features_singlechannel, Reference.channel_features.
  destruct (sigmas smin smax) as [err|sg]; [done|]. simpl.
  destruct (has_dask env).
  - destruct sg as [|s sg]; [done|].
    assert (exists w, dask_threads env nw = Ok w) as [w Hp].
    { destruct nw as [w|]; simpl; [| by eexists].
      simpl in Hw. destruct (Z.eqb_spec w 0); [lia|].
      destruct (Z.ltb_spec w 0); [lia | by eexists]. }
    cbn [map]. rewrite Hp. cbn [Py.bind].
    rewrite dask_compute_sequential; [done|].
    apply (singlescale_uniform _ (s :: sg)).
  - assert (exists w, ThreadPoolExecutor env nw = Ok w) as [w ->].
    { destruct nw as [w|]; simpl; [| by eexists].
      simpl in Hw. destruct (Z.leb_spec w 0); [lia | by eexists]. }
    simpl. by rewrite executor_map_sequential.
Qed.

Lemma sequence_singleton {A} (m : result A) :
  Py.sequence [m] = Py.bind m (fun a => Ok [a]).
Proof. by destruct m. Qed.

Lemma multiscale_sequential env image mc i e t smin smax nw ch :
  valid_workers nw ->
  multiscale_basic_features env image mc i e t smin smax nw ch
  = Reference.features_sequential image mc i e t smin smax.
Proof.
  intros Hw.
  unfold multiscale_basic_features, Reference.features_sequential,
    Reference.channels.
  destruct ((3 <=? ndim image)%nat && mc).
  - rewrite map_map.
    rewrite (map_ext _ (fun dim => Reference.channel_features
                          (channel image dim) i e t smin smax));
      [| intros dim; by apply mutiscale_sequential].
    by destruct (Py.sequence _).
  - cbn [map]. rewrite mutiscale_sequential, sequence_singleton by done.
    destruct (Reference.channel_features _ _ _ _ _ _); simpl; [done|].
    by rewrite app_nil_r.
Qed.

End Aggregation.

Section Shapes.
Context {F : Filters} {FS : FiltersSpec F}.

Lemma singlescale_ok img s :
  (2 <= ndim img)%nat -> Forall (fun n => 2 <= n)%nat (shape img) ->
  exists b,
    _singlescale_basic_features_singlechannel img s true true true = Ok b /\
    length b = (2 + ndim img)%nat /\ Forall (fun a => shape a = shape img) b.
Proof.
  intros Hk Hall. unfold _singlescale_basic_features_singlechannel.
  destruct (texture_filter_ok (gaussian img s)) as (out & -> & Hlen & Hsh).
  - unfold ndim. by rewrite gaussian_shape.
  - by rewrite gaussian_shape.
  - eexists. split; [done|]. split.
    + simpl. rewrite Hlen. unfold ndim. by rewrite gaussian_shape.
    + rewrite gaussian_shape in Hsh. simpl.
      repeat constructor; [apply gaussian_shape | | done].
      by rewrite sobel_shape, gaussian_shape.
Qed.

Lemma sequence_all_ok {A B} (f : A -> result B) (P : B -> Prop) (l : list A) :
  (forall x, x ∈ l -> exists b, f x = Ok b /\ P b) ->
  exists bs, Py.sequence (map f l) = Ok bs /\
    length bs = length l /\ Forall P bs.
Proof.
  induction l as [|x l IH]; intros H.
  - exists []. by repeat split.
  - destruct (H x) as (b & Hb & HP); [left|].
    destruct IH as (bs & Hbs & Hlen & HPs); [intros y Hy; apply H; by right|].
    exists (b :: bs). simpl. rewrite Hb, Hbs. simpl.
    repeat split; [by rewrite Hlen | by constructor].
Qed.

Lemma length_concat_uniform {A} (c : nat) (ls : list (list A)) :
  Forall (fun l => length l = c) ls -> length (concat ls) = (length ls * c)%nat.
Proof.
  induction 1 as [|l ls Hl _ IH]; [done|].
  simpl. rewrite length_app, IH, Hl. done.
Qed.

Lemma array_float32_stack (l : list (ndarray R)) (sh : list nat) :
  l <> [] -> Forall (fun a => shape a = sh) l ->
  array_float32 l = Ok (mk_ndarray float32 (length l :: sh)
                          (concat (map data l))).
Proof.
  intros Hne Hall. destruct l as [|a l]; [done|].
  unfold array_float32.
  rewrite (proj2 (forallb_forall _ _)).
  - by rewrite (Forall_inv Hall).
  - intros b Hb. apply bool_decide_eq_true.
    rewrite Forall_forall in Hall.
    rewrite (Hall b), (Hall a); [done | left | by apply list_elem_of_In].
Qed.

Lemma features_sequential_2d image (H W : nat) mc smin smax sg :
  shape image = [H; W] -> (2 <= H)%nat -> (2 <= W)%nat ->
  sigmas smin smax = Ok sg -> sg <> [] ->
  exists out,
    Reference.features_sequential image mc true true true smin smax = Ok out /\
    shape out = [(length sg * 4)%nat; H; W] /\ dtype_of out = float32.
Proof.
  intros Hsh HH HW Hsg Hne.
  unfold Reference.features_sequential, Reference.channels, ndim.
  rewrite Hsh. cbn [length Nat.leb andb map].
  rewrite sequence_singleton. unfold Reference.channel_features.
  rewrite Hsg. cbn [Py.bind].
  rewrite ascontiguousarray_axes by (by rewrite img_as_float32_shape, Hsh).
  destruct (sequence_all_ok
    (fun s => _singlescale_basic_features_singlechannel
                (img_as_float32 image) s true true true)
    (fun b => length b = 4%nat /\ Forall (fun a => shape a = [H; W]) b) sg)
    as (bs & -> & Hlen & Hbs).
  { intros s _.
    destruct (singlescale_ok (img_as_float32 image) s) as (b & Hb & Hl & Hs).
    - unfold ndim. by rewrite img_as_float32_shape, Hsh.
    - rewrite img_as_float32_shape, Hsh. repeat constructor; lia.
    - exists b. unfold ndim in Hl.
      rewrite img_as_float32_shape, Hsh in Hl, Hs. done. }
  simpl. rewrite app_nil_r.
  assert (length (concat bs) = (length sg * 4)%nat) as Hc.
  { rewrite <- Hlen. apply length_concat_uniform.
    eapply Forall_impl; [done|]. by intros b [? _]. }
  rewrite (array_float32_stack _ [H; W]).
  - eexists. split; [done|]. simpl. by rewrite Hc.
  - intros E. rewrite E in Hc. simpl in Hc. destruct sg; [done | simpl in Hc; lia].
  - apply Forall_concat. eapply Forall_impl; [done|]. by intros b [_ ?].
Qed.

End Shapes.

#[export] Instance plain_filters_spec : FiltersSpec plain_filters.
Proof.
  split; try done.
  intros sh elems Hne Hlen Hall. simpl.
  unfold Hessian.HessianEigenSolver.
  destruct elems as [|e0 elems].
  { exfalso. simpl in Hlen. destruct sh as [|n sh]; [done|].
    pose proof (even_triangle (length (n :: sh))) as He. simpl in *.
    rewrite <- Hlen in He. lia. }
  pose proof (Forall_inv Hall) as H0. unfold ndim. rewrite H0.
  rewrite bool_decide_eq_true_2 by done.
  rewrite (proj2 (forallb_forall _ _)).
  - eexists. split; [done|]. split.
    + by rewrite length_map, length_seq.
    + apply Forall_forall. intros e He.
      apply list_elem_of_fmap in He as (j & -> & _). done.
  - intros b Hb. apply bool_decide_eq_true.
    rewrite Forall_forall in Hall. apply Hall. by apply list_elem_of_In.
Qed.

Lemma positions_cons b mask :
  positions (b :: mask) = (if b then [0%nat] else []) ++ map S (positions mask).
Proof.
  assert (forall l, List.filter (fun p => nth p (b :: mask) false) (map S l)
                  = map S (List.filter (fun p => nth p mask false) l)) as E.
  { induction l as [|x l IH]; [done|]. cbn [map List.filter]. rewrite IH.
    change (nth (S x) (b :: mask) false) with (nth x mask false).
    by destruct (nth x mask false). }
  unfold positions.
  change (seq 0 (length (b :: mask))) with (0%nat :: seq 1 (length mask)).
  rewrite <- seq_shift. cbn [List.filter]. rewrite E.
  by destruct b.
Qed.

Lemma rank_0 mask : rank mask 0 = 0%nat.
Proof. done. Qed.

Lemma rank_S b mask p :
  rank (b :: mask) (S p) = ((if b then 1 else 0) + rank mask p)%nat.
Proof.
  unfold rank. cbn [take]. rewrite positions_cons, length_app, length_map.
  by destruct b.
Qed.

Lemma length_scatter mask dst vals :
  length (scatter mask dst vals) = length dst.
Proof.
  revert dst vals. induction mask as [|b mask IH]; intros dst vals.
  - by destruct dst.
  - destruct dst as [|x dst]; [by destruct b|].
    destruct b; simpl; [destruct vals as [|v vals]|]; simpl; by rewrite ?IH.
Qed.

Lemma scatter_lookup_false mask dst vals (p : nat) :
  nth p mask false = false ->
  scatter mask dst vals !! p = dst !! p.
Proof.
  revert dst vals p. induction mask as [|b mask IH]; intros dst vals p Hp.
  - by destruct dst.
  - destruct dst as [|x dst]; [by destruct b|].
    destruct b.
    + destruct p as [|p]; [done|]. simpl in Hp.
      destruct vals as [|v vals]; [done|]. simpl. by apply IH.
    + destruct p as [|p]; [done|]. simpl. by apply IH.
Qed.

Lemma scatter_lookup_true mask dst vals (p : nat) :
  length mask = length dst ->
  (length (positions mask) <= length vals)%nat ->
  nth p mask false = true ->
  scatter mask dst vals !! p = vals !! rank mask p.
Proof.
  revert dst vals p. induction mask as [|b mask IH]; intros dst vals p Hl Hc Hp.
  - by destruct p.
  - destruct dst as [|x dst]; [done|]. simpl in Hl.
    rewrite positions_cons, length_app, length_map in Hc.
    destruct b.
    + destruct vals as [|v vals]; [simpl in Hc; lia|].
      destruct p as [|p]; [done|]. rewrite rank_S. simpl.
      apply IH; [lia | simpl in Hc; lia | done].
    + destruct p as [|p]; [done|]. rewrite rank_S. simpl.
      apply IH; [lia | simpl in Hc; lia | done].
Qed.

Lemma positions_lookup mask (p : nat) :
  nth p mask false = true -> positions mask !! rank mask p = Some p.
Proof.
  revert p. induction mask as [|b mask IH]; intros p Hp.
  - by destruct p.
  - rewrite positions_cons. destruct p as [|p].
    + simpl in Hp. subst b. done.
    + rewrite rank_S. simpl in Hp. destruct b; simpl.
      * rewrite list_lookup_fmap, IH by done. done.
      * rewrite list_lookup_fmap, IH by done. done.
Qed.

Lemma filter_positions (f : Z -> bool) (l : list Z) :
  List.filter f l = map (fun p => nth p l 0%Z) (positions (map f l)).
Proof.
  induction l as [|x l IH]; [done|].
  cbn [map]. rewrite positions_cons, map_app, map_map. simpl.
  rewrite IH. by destruct (f x).
Qed.

Lemma positions_lt mask (p : nat) : p ∈ positions mask -> (p < length mask)%nat.
Proof.
  unfold positions. rewrite list_elem_of_In, filter_In, in_seq. lia.
Qed.


Section FitPredict.
Context {St : Type} {C : Classifier St}.

Lemma fit_segmenter_run (st : list (pyobj St)) (labels clf : loc)
    (lab : ndarray Z) (features : ndarray R) (n_features : nat)
    (c c' : St) (predicted : list Z) :
  st !! labels = Some (IntArray lab) ->
  st !! clf = Some (ClassifierObj c) ->
  shape features = n_features :: shape lab ->
  clf_fit c (map (pixel_row features) (positions (positive_mask lab)))
    (List.filter (fun x => (0 <? x)%Z) (data lab)) = Ok c' ->
  clf_predict c' (map (pixel_row features) (positions (zero_mask lab)))
    = Ok predicted ->
  length predicted = length (positions (zero_mask lab)) ->
  fit_segmenter labels features clf st =
    (Ok (length st, clf),
     <[length st :=
         IntArray (mk_ndarray (dtype_of lab) (shape lab)
                     (scatter (zero_mask lab) (data lab) predicted))]>
       (<[clf := ClassifierObj c']> st ++ [IntArray lab])).
Proof.
  intros Hlab Hclf Hsh Hfit Hpred Hlen.
  unfold fit_segmenter, bind, read_array, read_classifier, lift, write,
    alloc, ret, mask_rows, setitem_mask.
  rewrite Hlab, Hsh, bool_decide_eq_true_2 by done.
  rewrite Hclf.
  rewrite Hfit, Hpred, Hlen, Nat.eqb_refl, length_insert. done.
Qed.


Lemma zero_mask_nth lab (p : nat) v :
  data lab !! p = Some v -> nth p (zero_mask lab) false = (v =? 0)%Z.
Proof.
  intros Hp. unfold zero_mask.
  rewrite (nth_indep _ false ((fun x => (x =? 0)%Z) 0%Z)), map_nth.
  - apply nth_lookup_Some with (d := 0%Z) in Hp. by rewrite Hp.
  - rewrite length_map. by eapply lookup_lt_Some.
Qed.

Lemma positive_mask_nth lab (p : nat) v :
  data lab !! p = Some v -> nth p (positive_mask lab) false = (0 <? v)%Z.
Proof.
  intros Hp. unfold positive_mask.
  rewrite (nth_indep _ false ((fun x => (0 <? x)%Z) 0%Z)), map_nth.
  - apply nth_lookup_Some with (d := 0%Z) in Hp. by rewrite Hp.
  - rewrite length_map. by eapply lookup_lt_Some.
Qed.

(** C5. When the classifier fits and returns one prediction per
    unlabelled pixel, [fit_segmenter] returns a new array of the shape of
    the labels in which every pixel with a label above 0 (every pixel
    with a label other than 0) holds its label, and every pixel labelled
    0 holds its prediction; the label array given is a different object
    and holds afterwards what it held before. *)
Theorem fit_segmenter_keeps_labels (st : list (pyobj St)) (labels clf : loc)
    (lab : ndarray Z) (features : ndarray R) (n_features : nat)
    (c c' : St) (predicted : list Z) :
  st !! labels = Some (IntArray lab) ->
  st !! clf = Some (ClassifierObj c) ->
  shape features = n_features :: shape lab ->
  clf_fit c (map (pixel_row features) (positions (positive_mask lab)))
    (List.filter (fun x => (0 <? x)%Z) (data lab)) = Ok c' ->
  clf_predict c' (map (pixel_row features) (positions (zero_mask lab)))
    = Ok predicted ->
  length predicted = length (positions (zero_mask lab)) ->
  exists output out st',
    fit_segmenter labels features clf st = (Ok (output, clf), st') /\
    output <> labels /\
    st' !! labels = Some (IntArray lab) /\
    st' !! output = Some (IntArray out) /\
    shape out = shape lab /\
    length (data out) = length (data lab) /\
    (forall (p : nat) v,
       data lab !! p = Some v -> (0 < v)%Z -> data out !! p = Some v) /\
    (forall (p : nat) v,
       data lab !! p = Some v -> v <> 0%Z -> data out !! p = Some v) /\
    (forall p : nat,
       data lab !! p = Some 0%Z ->
       data out !! p = predicted !! rank (zero_mask lab) p).
Proof.
  intros Hlab Hclf Hsh Hfit Hpred Hlen.
  pose proof (lookup_lt_Some _ _ _ Hlab) as Hlt.
  assert (labels <> clf) as Hne by (intros ->; congruence).
  eexists _, (mk_ndarray (dtype_of lab) (shape lab)
                (scatter (zero_mask lab) (data lab) predicted)), _.
  split; [by eapply fit_segmenter_run|].
  split; [lia|]. split; [| split; [| split; [done | split]]].
  - rewrite list_lookup_insert_ne by lia.
    rewrite lookup_app_l by (by rewrite length_insert).
    by rewrite list_lookup_insert_ne.
  - apply list_lookup_insert_eq. rewrite length_app, length_insert. simpl. lia.
  - apply length_scatter.
  - assert (forall (p : nat) v, data lab !! p = Some v -> v <> 0%Z ->
              scatter (zero_mask lab) (data lab) predicted !! p = Some v) as Hk.
    { intros p v Hp Hv. rewrite scatter_lookup_false; [done|].
      rewrite (zero_mask_nth lab p v Hp). by apply Z.eqb_neq. }
    split; [intros p v Hp Hv; apply Hk; [done | lia] |].
    split; [done|].
    intros p Hp. simpl. apply scatter_lookup_true.
    + unfold zero_mask. by rewrite length_map.
    + lia.
    + by rewrite (zero_mask_nth lab p 0 Hp).
Qed.

(** C6, amended. After [fit_segmenter], [predict_segmenter] with the
    fitted classifier and the same features returns the prediction of
    the classifier for the matrix of all pixels; at a pixel with a label
    above 0 this is the training label whenever the fitted classifier
    reproduces its training samples. *)
Theorem fit_then_predict (st : list (pyobj St)) (labels clf : loc)
    (lab : ndarray Z) (features : ndarray R) (n_features : nat)
    (c c' : St) (predicted_zero predicted : list Z) :
  let X := map (pixel_row features) (positions (positive_mask lab)) in
  let y := List.filter (fun x => (0 <? x)%Z) (data lab) in
  let X_all := map (pixel_row features) (seq 0 (prod (shape lab))) in
  st !! labels = Some (IntArray lab) ->
  st !! clf = Some (ClassifierObj c) ->
  shape features = n_features :: shape lab ->
  shape lab <> [] ->
  well_formed lab ->
  clf_fit c X y = Ok c' ->
  clf_predict c' (map (pixel_row features) (positions (zero_mask lab)))
    = Ok predicted_zero ->
  length predicted_zero = length (positions (zero_mask lab)) ->
  clf_predict c' X_all = Ok predicted ->
  length predicted = prod (shape lab) ->
  exists output st',
    fit_segmenter labels features clf st = (Ok (output, clf), st') /\
    predict_segmenter features clf st'
      = (Ok (mk_ndarray int64 (shape lab) predicted), st') /\
    (reproduces_training c' X y ->
     forall (p : nat) v,
       data lab !! p = Some v -> (0 < v)%Z -> predicted !! p = Some v).
Proof.
  intros X y X_all Hlab Hclf Hsh Hne Hwf Hfit Hpz Hlz Hpred Hlen.
  pose proof (lookup_lt_Some _ _ _ Hclf) as Hlt.
  eexists _, _. split; [by eapply fit_segmenter_run|]. split.
  - unfold predict_segmenter. rewrite Hsh.
    destruct (shape lab) as [|n sh] eqn:Es; [done|].
    unfold bind, read_classifier.
    rewrite list_lookup_insert_ne by lia.
    rewrite lookup_app_l by (by rewrite length_insert).
    rewrite list_lookup_insert_eq by done.
    fold X_all. rewrite Hpred, Hlen, Nat.eqb_refl. done.
  - intros Hrep p v Hp Hv.
    pose proof (positive_mask_nth lab p v Hp) as Hm.
    rewrite (proj2 (Z.ltb_lt 0 v) Hv) in Hm.
    rewrite (Hrep X_all predicted Hpred (rank (positive_mask lab) p) p
               (pixel_row features p)).
    + unfold y. rewrite filter_positions. fold (positive_mask lab).
      rewrite list_lookup_fmap, positions_lookup by done. simpl.
      f_equal. by apply nth_lookup_Some.
    + unfold X. by rewrite list_lookup_fmap, positions_lookup.
    + unfold X_all. rewrite list_lookup_fmap, lookup_seq_lt; [done|].
      rewrite <- Hwf. by eapply lookup_lt_Some.
Qed.

(** C7, amended. For a feature stack of shape [(F, *S)] with at least
    one spatial axis, [predict_segmenter] calls the classifier on the
    matrix with one row of [F] values per pixel; when the classifier is not fitted, and so raises
    [NotFittedError], the call raises [NotFittedError]; when it predicts
    one class per pixel, the call returns the prediction with the shape
    [S]. *)
Theorem predict_segmenter_spec (st : list (pyobj St)) (clf : loc) (c : St)
    (features : ndarray R) (n_features : nat) (sh : list nat) :
  let X := map (pixel_row features) (seq 0 (prod sh)) in
  st !! clf = Some (ClassifierObj c) ->
  shape features = n_features :: sh ->
  sh <> [] ->
  (* the matrix given to the classifier has one row per pixel *)
  (length X = prod sh /\
   forall (p : nat) row, X !! p = Some row ->
     length row = n_features /\
     forall f : nat, (f < n_features)%nat ->
       row !! f = Some (nth (f * prod sh + p) (data features) 0%R)) /\
  (* a classifier that was not fitted *)
  (forall fitted : St -> Prop,
     (forall c0 X0, ~ fitted c0 -> clf_predict c0 X0 = Raise NotFittedError) ->
     ~ fitted c ->
     predict_segmenter features clf st = (Raise NotFittedError, st)) /\
  (* a classifier that predicts *)
  (forall predicted,
     clf_predict c X = Ok predicted ->
     length predicted = prod sh ->
     predict_segmenter features clf st
       = (Ok (mk_ndarray int64 sh predicted), st)).
Proof.
  intros X Hclf Hsh Hne. split; [| split].
  - split; [unfold X; by rewrite length_map, length_seq|].
    intros p row Hrow. unfold X in Hrow.
    rewrite list_lookup_fmap in Hrow.
    destruct (seq 0 (prod sh) !! p) as [p'|] eqn:Ep; [|done].
    apply lookup_seq in Ep as [-> _]. injection Hrow as <-.
    unfold pixel_row. rewrite Hsh. split.
    + by rewrite length_map, length_seq.
    + intros f Hf. by rewrite list_lookup_fmap, lookup_seq_lt.
  - intros fitted Hcontract Hun.
    unfold predict_segmenter. rewrite Hsh.
    destruct sh as [|n sh]; [done|].
    unfold bind, read_classifier. rewrite Hclf.
    by rewrite Hcontract.
  - intros predicted Hpred Hlen.
    unfold predict_segmenter. rewrite Hsh.
    destruct sh as [|n sh]; [done|].
    unfold bind, read_classifier. rewrite Hclf.
    fold X. by rewrite Hpred, Hlen, Nat.eqb_refl.
Qed.

End FitPredict.

(** * The claims about feature extraction *)


Section FeatureClaims.
Local Open Scope R_scope.

Lemma sigmas_default_nonempty :
  exists s scales, sigmas (1 / 2) 16 = Ok (s :: scales).
Proof.
  destruct (sigmas_lookup (1 / 2) 16 0 ltac:(lra) ltac:(lra))
    as (l & Hl & Hlen & H0).
  - destruct (scale_count (1 / 2) 16 ltac:(lra) ltac:(lra)) as [Hn _].
    simpl in Hn. lia.
  - destruct l as [|s l]; [done|]. by exists s, l.
Qed.

Lemma sigmas_1_half : sigmas 1 (1 / 2) = Ok [].
Proof. apply sigmas_empty; lra. Qed.

Lemma single_channel_empty_scales {F : Filters} env image mc i e t
    smin smax nw ch :
  (3 <=? ndim image)%nat && mc = false ->
  valid_workers nw ->
  sigmas smin smax = Ok [] ->
  multiscale_basic_features env image mc i e t smin smax nw ch
  = Ok (mk_ndarray float32 [0%nat] []).
Proof.
  intros Hc Hw Hs.
  unfold multiscale_basic_features, _mutiscale_basic_features_singlechannel.
  rewrite Hc, Hs. simpl.
  destruct (has_dask env); [done|].
  destruct nw as [w|]; simpl; [| done].
  simpl in Hw. by destruct (Z.leb_spec w 0); [lia|].
Qed.

Lemma single_channel_sigmas_raise {F : Filters} env image mc i e t
    smin smax nw ch err :
  (3 <=? ndim image)%nat && mc = false ->
  sigmas smin smax = Raise err ->
  multiscale_basic_features env image mc i e t smin smax nw ch = Raise err.
Proof.
  intros Hc Hs.
  unfold multiscale_basic_features, _mutiscale_basic_features_singlechannel.
  by rewrite Hc, Hs.
Qed.

(** C1, amended. For a 2-D single-channel image of shape [(H, W)] with
    at least two rows and two columns, all three flags enabled, a scale
    sequence that is not empty and a pool size that the executor accepts,
    [multiscale_basic_features] returns an array of shape [(F, H, W)]
    with [F = n_scales * (1 + 1 + 2)] and dtype float32. *)
Theorem features_shape_2d {F : Filters} {FS : FiltersSpec F} (env : Env)
    (image : ndarray R) (H W : nat) (multichannel : bool)
    (sigma_min sigma_max : R) (num_workers : option Z)
    (choices : nat -> list nat) (scales : list R) :
  shape image = [H; W] -> (2 <= H)%nat -> (2 <= W)%nat ->
  sigmas sigma_min sigma_max = Ok scales -> scales <> [] ->
  valid_workers num_workers ->
  exists out,
    multiscale_basic_features env image multichannel true true true
      sigma_min sigma_max num_workers choices = Ok out /\
    shape out = [(length scales * (1 + 1 + 2))%nat; H; W] /\
    dtype_of out = float32.
Proof.
  intros Hsh HH HW Hsg Hne Hw.
  rewrite multiscale_sequential by done.
  by apply features_sequential_2d.
Qed.

Lemma features_shape_2d_witness :
  exists out,
    multiscale_basic_features (F := plain_filters) example_env image_2x2
      true true true true 1 4 None (fun _ => []) = Ok out /\
    shape out = [(length [4; 2; 1]%R * (1 + 1 + 2))%nat; 2%nat; 2%nat] /\
    dtype_of out = float32.
Proof.
  apply (features_shape_2d (FS := plain_filters_spec));
    [reflexivity | lia | lia | apply sigmas_1_4 | discriminate | exact I].
Defined.

(** C1 as stated fails on an image with a single row: the second
    differences of the texture feature need two samples along each axis,
    and the call raises instead of returning an array of shape
    [(F, 1, 2)]. *)
Lemma features_shape_counterexample :
  multiscale_basic_features (F := plain_filters) example_env image_1x2
    true true true true (1 / 2) 16 None (fun _ => []) = Raise ValueError.
Proof.
  rewrite multiscale_sequential by done.
  destruct sigmas_default_nonempty as (s & scales & Hs).
  unfold Reference.features_sequential, Reference.channels. simpl.
  unfold Reference.channel_features. rewrite Hs. reflexivity.
Qed.

(** C2. The feature stack does not depend on the number of workers nor
    on the order in which the tasks complete: with one worker and with
    eight, under any picks of the scheduler, it is the stack of the
    sequential reference, that is channels in ascending order, for each
    channel the scales in the order of the scale sequence (descending),
    and for each scale intensity, then edges, then the texture
    eigenvalues. *)
Theorem features_order_independent {F : Filters} {FS : FiltersSpec F}
    (env : Env) (image : ndarray R)
    (multichannel intensity edges texture : bool)
    (sigma_min sigma_max : R) (choices1 choices8 : nat -> list nat) :
  multiscale_basic_features env image multichannel intensity edges texture
    sigma_min sigma_max (Some 1%Z) choices1
  = multiscale_basic_features env image multichannel intensity edges texture
      sigma_min sigma_max (Some 8%Z) choices8 /\
  multiscale_basic_features env image multichannel intensity edges texture
    sigma_min sigma_max (Some 8%Z) choices8
  = Reference.features_sequential image multichannel intensity edges texture
      sigma_min sigma_max /\
  (forall img s,
     _singlescale_basic_features_singlechannel img s intensity edges texture
     = let g := gaussian img s in
       let! eigenvalues := if texture then _texture_filter g else Ok [] in
       Ok ((if intensity then [g] else []) ++
           (if edges then [sobel g] else []) ++ eigenvalues)) /\
  (0 < sigma_min -> sigma_min <= sigma_max ->
   exists scales, sigmas sigma_min sigma_max = Ok scales /\
                  descending scales).
Proof.
  split; [| split; [| split]].
  - by rewrite !multiscale_sequential.
  - by rewrite multiscale_sequential.
  - intros img s. unfold _singlescale_basic_features_singlechannel.
    destruct texture; simpl.
    + destruct (_texture_filter (gaussian img s)); simpl; [done|].
      by destruct intensity, edges.
    + destruct intensity, edges; by rewrite ?app_nil_r.
  - intros Hmin Hle.
    destruct (sigmas_spacing sigma_min sigma_max Hmin Hle)
      as (l & Hl & _ & _ & _ & _ & _ & Hd).
    by exists l.
Qed.

Lemma features_order_independent_witness :
  multiscale_basic_features (F := plain_filters) example_env image_2x2
    true true true true 1 4 (Some 1%Z) (fun _ => [])
  = multiscale_basic_features (F := plain_filters) example_env image_2x2
      true true true true 1 4 (Some 8%Z) (fun _ => [2; 0; 1]%nat).
Proof.
  apply (features_order_independent (FS := plain_filters_spec)).
Defined.

(** C10. With [multichannel=True] and an image of fewer than three
    dimensions the image is processed as one channel: the result is the
    one of [multichannel=False], the stack of the single-channel features
    of the whole image; the last axis is not split. *)
Theorem multichannel_ignored_below_3d {F : Filters} (env : Env)
    (image : ndarray R) (intensity edges texture : bool)
    (sigma_min sigma_max : R) (num_workers : option Z)
    (choices : nat -> list nat) :
  (ndim image < 3)%nat ->
  multiscale_basic_features env image true intensity edges texture
    sigma_min sigma_max num_workers choices
  = multiscale_basic_features env image false intensity edges texture
      sigma_min sigma_max num_workers choices /\
  multiscale_basic_features env image true intensity edges texture
    sigma_min sigma_max num_workers choices
  = (let! features :=
       _mutiscale_basic_features_singlechannel env image
         intensity edges texture sigma_min sigma_max num_workers
         (choices 0%nat) in
     array_float32 features).
Proof.
  intros Hn. unfold multiscale_basic_features.
  rewrite (proj2 (Nat.leb_gt 3 (ndim image))) by lia. done.
Qed.

Lemma multichannel_ignored_below_3d_witness :
  multiscale_basic_features (F := plain_filters) example_env image_2x2
    true true true true 1 4 None (fun _ => [])
  = multiscale_basic_features (F := plain_filters) example_env image_2x2
      false true true true 1 4 None (fun _ => []).
Proof.
  apply (multichannel_ignored_below_3d (F := plain_filters)).
  unfold ndim. simpl. lia.
Defined.

(** C4, amended. For bounds that are powers of two,
    [sigma_min = 2^a] and [sigma_max = 2^(a+m)] with exponents of normal
    float64 numbers, the scale sequence is [2^(a+m), ..., 2^(a+1), 2^a]:
    [m + 1 = floor(log2 sigma_max - log2 sigma_min) + 1] values with the
    ratio 2, both bounds included, in descending order. For these bounds
    the logarithms, the sample positions and the powers are integers or
    powers of two, which float64 holds without rounding. The bounds 1
    and 4 give [4, 2, 1]; equal bounds 2 give [2]. *)
Theorem scale_sequence_spacing :
  (forall (a : Z) (m : nat),
     (-1022 <= a)%Z -> (a + Z.of_nat m <= 1023)%Z ->
     let sigma_min := powerRZ 2 a in
     let sigma_max := powerRZ 2 (a + Z.of_nat m) in
     exists l, sigmas sigma_min sigma_max = Ok l /\
       l = map (fun i : nat => powerRZ 2 (a + Z.of_nat (m - i)))
             (seq 0 (S m)) /\
       length l
       = Z.to_nat (Int_part (log2r sigma_max - log2r sigma_min) + 1) /\
       head l = Some sigma_max /\ last l = Some sigma_min /\
       geometric 2 l /\ descending l) /\
  sigmas 1 4 = Ok [4; 2; 1] /\
  sigmas 2 2 = Ok [2].
Proof.
  split; [| split; [apply sigmas_1_4 | apply sigmas_2_2]].
  intros a m _ _ sigma_min sigma_max. eexists.
  split; [apply sigmas_powers_of_two|]. split; [done|].
  split; [| split; [| split]].
  - unfold sigma_min, sigma_max.
    rewrite log2r_powers, Int_part_INR, length_map, length_seq. lia.
  - cbn [seq map head]. by rewrite Nat.sub_0_r.
  - rewrite seq_S, map_app. cbn [map Nat.add]. rewrite last_snoc.
    by rewrite Nat.sub_diag, Z.add_0_r.
  - apply powers_of_two_geometric.
Qed.

Lemma scale_sequence_spacing_witness :
  exists l, sigmas (powerRZ 2 (-1)) (powerRZ 2 (-1 + Z.of_nat 5)) = Ok l /\
    l = map (fun i : nat => powerRZ 2 (-1 + Z.of_nat (5 - i))) (seq 0 6) /\
    length l
    = Z.to_nat (Int_part (log2r (powerRZ 2 (-1 + Z.of_nat 5))
                          - log2r (powerRZ 2 (-1))) + 1) /\
    head l = Some (powerRZ 2 (-1 + Z.of_nat 5)) /\
    last l = Some (powerRZ 2 (-1)) /\
    geometric 2 l /\ descending l.
Proof.
  apply (proj1 scale_sequence_spacing (-1)%Z 5%nat); lia.
Defined.

(** C4 as stated fails for bounds whose ratio is not a power of two:
    between the bounds 1 and 3 the two values have the ratio 3, not 2;
    between 1 and 3/2 the only value is 1, and the upper bound is not
    part of the sequence. *)
Lemma scale_sequence_counterexample :
  sigmas 1 3 = Ok [3; 1] /\ ~ geometric 2 [3; 1] /\
  sigmas 1 (3 / 2) = Ok [1] /\ head [1] <> Some (3 / 2).
Proof.
  split; [apply sigmas_1_3|]. split; [| split; [apply sigmas_1_3half|]].
  - intros Hg. specialize (Hg 0%nat 3 1 eq_refl eq_refl). lra.
  - simpl. intros [= H]. lra.
Qed.

(** C8, amended. The bounds are not validated; an exception arises only
    from the conversion of the sample count or from [logspace]. A
    negative bound, or two bounds that are 0, make the count nan and
    [int] raise [ValueError]; one bound that is 0 beside a positive one
    makes the count infinite and [int] raise [OverflowError]. For
    positive bounds that are powers of two (exponents of normal float64
    numbers) with [sigma_max < sigma_min]: [sigma_max = sigma_min / 2]
    raises nothing and gives the empty scale sequence;
    [sigma_max <= sigma_min / 4] gives a negative count, which
    [logspace] refuses with [ValueError]. With an empty scale sequence
    the features of a single-channel image are an empty array of shape
    [(0,)]; an exception of the scale sequence is the exception of the
    whole call. *)
Theorem invalid_sigma_bounds {F : Filters} (env : Env) (image : ndarray R)
    (multichannel intensity edges texture : bool)
    (sigma_min sigma_max : R) (num_workers : option Z)
    (choices : nat -> list nat) :
  (sigma_min < 0 \/ sigma_max < 0 \/ (sigma_min = 0 /\ sigma_max = 0) ->
   sigmas sigma_min sigma_max = Raise ValueError) /\
  ((sigma_min = 0 /\ 0 < sigma_max) \/ (0 < sigma_min /\ sigma_max = 0) ->
   sigmas sigma_min sigma_max = Raise OverflowError) /\
  (forall a b : Z, (-1022 <= b)%Z -> (b < a)%Z -> (a <= 1023)%Z ->
     (b = (a - 1)%Z -> sigmas (powerRZ 2 a) (powerRZ 2 b) = Ok []) /\
     ((b <= a - 2)%Z ->
      sigmas (powerRZ 2 a) (powerRZ 2 b) = Raise ValueError)) /\
  ((3 <=? ndim image)%nat && multichannel = false ->
   valid_workers num_workers ->
   sigmas sigma_min sigma_max = Ok [] ->
   multiscale_basic_features env image multichannel intensity edges
     texture sigma_min sigma_max num_workers choices
   = Ok (mk_ndarray float32 [0%nat] [])) /\
  (forall err, (3 <=? ndim image)%nat && multichannel = false ->
   sigmas sigma_min sigma_max = Raise err ->
   multiscale_basic_features env image multichannel intensity edges
     texture sigma_min sigma_max num_workers choices = Raise err).
Proof.
  split; [apply sigmas_nonpositive_exact|].
  split; [apply sigmas_nonpositive_exact|].
  split; [intros a b _ Hlt _; by apply sigmas_powers_reversed|].
  split; [apply single_channel_empty_scales|].
  intros err. apply single_channel_sigmas_raise.
Qed.

Lemma invalid_sigma_bounds_witness :
  sigmas (-1) 1 = Raise ValueError /\
  sigmas (powerRZ 2 0) (powerRZ 2 (-2)) = Raise ValueError /\
  multiscale_basic_features (F := plain_filters) example_env image_2x2
    true true true true 0 1 None (fun _ => []) = Raise OverflowError.
Proof.
  split; [| split].
  - apply (proj1 (invalid_sigma_bounds (F := plain_filters)
             example_env image_2x2 true true true true (-1) 1 None
             (fun _ => []))). lra.
  - apply (proj1 (proj2 (proj2 (invalid_sigma_bounds (F := plain_filters)
             example_env image_2x2 true true true true 1 1 None
             (fun _ => []))))); lia.
  - pose proof (invalid_sigma_bounds (F := plain_filters)
             example_env image_2x2 true true true true 0 1 None
             (fun _ => [])) as (_ & H0 & _ & _ & Hp).
    apply Hp; [reflexivity|]. apply H0. left. lra.
Defined.

(** C8 as stated fails: with [sigma_min = 1] and [sigma_max = 1/2] no
    exception is raised; the scale sequence is empty and the call returns
    an empty array. *)
Lemma invalid_sigma_bounds_counterexample :
  sigmas 1 (1 / 2) = Ok [] /\
  multiscale_basic_features (F := plain_filters) example_env image_2x2
    true true true true 1 (1 / 2) None (fun _ => [])
  = Ok (mk_ndarray float32 [0%nat] []).
Proof.
  split; [apply sigmas_1_half|].
  apply single_channel_empty_scales; [done | done | apply sigmas_1_half].
Qed.

End FeatureClaims.


(** * The claim about the eigenvalues of the Hessian *)

Section HessianClaims.
Local Open Scope R_scope.
Import Hessian.














End HessianClaims.

(** ** Examples for the claims about the segmenter *)


Section SegmenterExamples.

Lemma fit_segmenter_keeps_labels_witness :
  exists output out st',
    fit_segmenter (C := constant_classifier 7) 0 example_features 1
      example_store = (Ok (output, 1%nat), st') /\
    output <> 0%nat /\
    st' !! 0%nat = Some (IntArray example_labels) /\
    st' !! output = Some (IntArray out) /\
    shape out = shape example_labels /\
    length (data out) = length (data example_labels) /\
    (forall (p : nat) v,
       data example_labels !! p = Some v -> (0 < v)%Z ->
       data out !! p = Some v) /\
    (forall (p : nat) v,
       data example_labels !! p = Some v -> v <> 0%Z ->
       data out !! p = Some v) /\
    (forall p : nat,
       data example_labels !! p = Some 0%Z ->
       data out !! p = [7%Z] !! rank (zero_mask example_labels) p).
Proof.
  apply (fit_segmenter_keeps_labels (C := constant_classifier 7)
           example_store 0 1 example_labels example_features 1 false true
           [7%Z]); reflexivity.
Defined.

Lemma constant_reproduces (k : Z) (X : list (list R)) (y : list Z) :
  length y = length X -> Forall (fun v => v = k) y ->
  reproduces_training (C := constant_classifier k) true X y.
Proof.
  intros Hlen Hy X' predicted [= <-] i j row Hi Hj.
  rewrite list_lookup_fmap, Hj. simpl.
  destruct (lookup_lt_is_Some_2 y i) as [v Hv].
  { rewrite Hlen. by eapply lookup_lt_Some. }
  rewrite Hv. f_equal. symmetry.
  rewrite Forall_forall in Hy. apply Hy. by eapply list_elem_of_lookup_2.
Qed.

Lemma fit_then_predict_witness :
  exists output st',
    fit_segmenter (C := constant_classifier 1) 0 example_features 1
      example_store = (Ok (output, 1%nat), st') /\
    predict_segmenter (C := constant_classifier 1) example_features 1 st'
      = (Ok (mk_ndarray int64 [2]%nat [1; 1]%Z), st') /\
    forall (p : nat) v,
      data example_labels !! p = Some v -> (0 < v)%Z ->
      [1; 1]%Z !! p = Some v.
Proof.
  destruct (fit_then_predict (C := constant_classifier 1)
              example_store 0 1 example_labels example_features 1
              false true [1%Z] [1; 1]%Z)
    as (output & st' & Hfit & Hpred & Hround);
    try reflexivity; [discriminate|].
  exists output, st'. split; [exact Hfit|]. split; [exact Hpred|].
  apply Hround. apply constant_reproduces; [reflexivity|].
  repeat constructor.
Defined.

(** C6 as stated fails: a classifier that answers 7 for every sample is
    trained on the pixel labelled 1; the prediction over the full image
    is 7 at that pixel. *)
Lemma fit_then_predict_counterexample :
  let st' := [IntArray example_labels; ClassifierObj true;
              IntArray (mk_ndarray int64 [2]%nat [1; 7]%Z)] in
  fit_segmenter (C := constant_classifier 7) 0 example_features 1
    example_store = (Ok (2%nat, 1%nat), st') /\
  predict_segmenter (C := constant_classifier 7) example_features 1 st'
    = (Ok (mk_ndarray int64 [2]%nat [7; 7]%Z), st') /\
  data example_labels !! 0%nat = Some 1%Z /\
  [7; 7]%Z !! 0%nat <> Some 1%Z.
Proof.
  split; [reflexivity|]. split; [reflexivity|].
  split; [reflexivity | discriminate].
Qed.

Lemma predict_segmenter_spec_witness :
  predict_segmenter (C := constant_classifier 7) example_features 1
    example_store = (Raise NotFittedError, example_store).
Proof.
  apply (proj1 (proj2 (predict_segmenter_spec (C := constant_classifier 7)
           example_store 1 false example_features 1 [2]%nat
           eq_refl eq_refl ltac:(discriminate)))
         (fun fitted : bool => fitted = true)).
  - intros c0 X0 Hc. destruct c0; [done | reflexivity].
  - discriminate.
Defined.

(** C7 as stated fails on a feature stack without a spatial axis: the
    product of the empty tuple of sizes is the float [1.0], [reshape]
    raises [TypeError], and the classifier, fitted or not, is never
    asked. *)
Lemma predict_segmenter_counterexample :
  example_store !! 1%nat = Some (ClassifierObj false) /\
  (forall X, clf_predict (Classifier := constant_classifier 7) false X
             = Raise NotFittedError) /\
  predict_segmenter (C := constant_classifier 7)
    (mk_ndarray float32 [3]%nat [1; 2; 3]) 1 example_store
  = (Raise TypeError, example_store).
Proof. by repeat split. Qed.

End SegmenterExamples.

(** * The claim about the segmenter object *)


Section SegmenterObject.
Import TrainableSegmenter.
Context {F : Filters} {St : Type} {C : Classifier St}.
Variable env : Env.
Variable choices : nat -> list nat.


(** C9, amended. The cache is written by [compute_features] only, which
    [fit] calls when the cache is empty. With a cache, [fit] trains on
    the cached features whatever image it is given; without one, it
    computes the features of the image it is given, keeps them and
    trains on them, and with the default feature function and no image
    it raises [AttributeError]. [predict] computes the features of its
    image, does not read the cache and leaves it as it was. *)
Theorem segmenter_cache (labels : loc) (image : option (ndarray R))
    (s : self) (st : list (pyobj St)) :
  (forall cached, features s = Some cached ->
     fit env choices labels image s st = train labels cached s st /\
     forall image', fit env choices labels image' s st
                    = fit env choices labels image s st) /\
  (forall feats, features s = None ->
     call_features_func env choices (default Default (features_func s)) image
       = Ok feats ->
     fit env choices labels image s st
     = train labels feats
         (mk_self (clf s) (Some (default Default (features_func s)))
            (Some feats) (segmented_image s)) st) /\
  (features s = None -> default Default (features_func s) = Default ->
   fit env choices labels None s st
   = (Raise AttributeError,
      (mk_self (clf s) (Some Default) None (segmented_image s), st))) /\
  (features (fst (snd (predict env choices image s st))) = features s /\
   forall cache,
     fst (predict env choices image
            (mk_self (clf s) (features_func s) cache (segmented_image s)) st)
     = fst (predict env choices image s st)) /\
  (forall feats,
     call_features_func env choices (default Default (features_func s)) image
       = Ok feats ->
     fst (predict env choices image s st)
     = fst (predict_segmenter feats (clf s) st)).
Proof.
  split; [| split; [| split; [| split]]].
  - intros cached Hc.
    assert (forall image', fit env choices labels image' s st
                           = train labels cached s st) as H.
    { intros image'. unfold fit, train. rewrite Hc. cbn. rewrite Hc.
      by destruct (fit_segmenter labels cached (clf s) st)
        as [[e|[o c]] st']. }
    split; [apply H|]. intros image'. by rewrite !H.
  - intros feats Hn Hf. unfold fit, train, compute_features.
    rewrite Hn, Hf. simpl. done.
  - intros Hn Hd. unfold fit, compute_features. rewrite Hn, Hd. done.
  - split.
    + unfold predict.
      destruct (call_features_func _ _ _ _); [done|]. simpl.
      by destruct (predict_segmenter _ _ _).
    + intros cache. unfold predict. simpl.
      destruct (call_features_func _ _ _ _); [done|]. simpl.
      by destruct (predict_segmenter _ _ _).
  - intros feats Hf. unfold predict. rewrite Hf. simpl.
    by destruct (predict_segmenter _ _ _).
Qed.

End SegmenterObject.

Section SegmenterObjectExamples.
Import TrainableSegmenter.

Lemma segmenter_cache_witness :
  fit (F := plain_filters) (C := constant_classifier 7) example_env
    (fun _ => []) 0 (Some image_b)
    (mk_self 1 (Some identity_features) (Some example_features) None)
    example_store
  = train (C := constant_classifier 7) 0 example_features
      (mk_self 1 (Some identity_features) (Some example_features) None)
      example_store.
Proof.
  apply (proj1 (segmenter_cache (F := plain_filters)
                  (C := constant_classifier 7) example_env (fun _ => [])
                  0 (Some image_b)
                  (mk_self 1 (Some identity_features)
                     (Some example_features) None) example_store)).
  reflexivity.
Defined.

(** C9 as stated fails: after the features of one image were computed,
    [fit] with another image keeps and uses the cached features of the
    first; the features of the image it was given are never computed. *)
Lemma segmenter_cache_counterexample :
  let s0 := __init__ 1 (Some identity_features) in
  let r1 := compute_features (F := plain_filters) (St := bool) example_env
              (fun _ => []) (Some image_a) s0 example_store in
  let r2 := fit (F := plain_filters) (C := constant_classifier 7)
              example_env (fun _ => []) 0 (Some image_b)
              (fst (snd r1)) (snd (snd r1)) in
  fst r1 = Ok tt /\ fst r2 = Ok tt /\
  features (fst (snd r2))
    = Some (mk_ndarray float32 [1; 2]%nat [1; 2]%R) /\
  features (fst (snd r2))
    <> Some (mk_ndarray float32 [1; 2]%nat [3; 4]%R).
Proof.
  split; [reflexivity|]. split; [reflexivity|]. split; [reflexivity|].
  simpl. intros [= H]. lra.
Qed.

End SegmenterObjectExamples.

(** * Further properties of the feature extraction *)


Section FeatureExtras.
Context {F : Filters} {FS : FiltersSpec F}.


Lemma texture_filter_small_axis (g : ndarray R) :
  (2 <= ndim g)%nat -> ~ Forall (fun n => 2 <= n)%nat (shape g) ->
  _texture_filter g = Raise ValueError.
Proof.
  clear FS.
  intros Hk Hall. unfold _texture_filter, gradient.
  assert (forallb (fun n => (2 <=? n)%nat) (shape g) = false) as ->.
  { apply not_true_is_false. intros E. apply Hall, Forall_forall.
    intros n Hn. apply Nat.leb_le. eapply forallb_forall in E; [done|].
    by apply list_elem_of_In. }
  unfold ndim in *. destruct (length (shape g)) as [|[|k]]; [lia|lia|].
  reflexivity.
Qed.

Lemma texture_filter_1d (g : ndarray R) (n : nat) :
  shape g = [n] ->
  _texture_filter g
  = Raise (if (2 <=? n)%nat then AxisError else ValueError).
Proof.
  clear FS.
  intros Hs. unfold _texture_filter, gradient, ndim. rewrite Hs.
  cbn [length combinations_with_replacement2 seq flat_map map app
       Py.sequence forallb Nat.sub].
  destruct (2 <=? n)%nat eqn:En; simpl; [|done].
  unfold gradient_along. simpl. rewrite Hs.
  assert ((0 <? prod [n])%nat = true) as ->.
  { apply Nat.ltb_lt. apply Nat.leb_le in En. simpl. lia. }
  done.
Qed.

Lemma singlescale_flags_ok img s i e t :
  (t = true ->
   (2 <= ndim img)%nat /\ Forall (fun n => 2 <= n)%nat (shape img)) ->
  exists b,
    _singlescale_basic_features_singlechannel img s i e t = Ok b /\
    length b = bundle_size i e t (ndim img) /\
    Forall (fun a => shape a = shape img) b.
Proof.
  intros Ht. unfold _singlescale_basic_features_singlechannel.
  assert (Forall (fun a => shape a = shape img)
            ((if e then (if i then [] ++ [gaussian img s] else []) ++
                        [sobel (gaussian img s)]
              else if i then [] ++ [gaussian img s] else []))) as Hpre.
  { destruct i, e; simpl; repeat constructor;
      rewrite ?sobel_shape; apply gaussian_shape. }
  destruct t.
  - destruct (Ht eq_refl) as [Hk Hall].
    destruct (texture_filter_ok (gaussian img s)) as (out & -> & Hlen & Hsh).
    + unfold ndim. by rewrite gaussian_shape.
    + by rewrite gaussian_shape.
    + eexists. split; [done|]. split.
      * rewrite length_app, Hlen. unfold ndim, bundle_size.
        rewrite gaussian_shape. by destruct i, e.
      * apply Forall_app. split; [done|]. by rewrite gaussian_shape in Hsh.
  - eexists. split; [done|]. split; [|done].
    unfold bundle_size. by destruct i, e.
Qed.

Lemma channel_features_ok img i e t smin smax scales :
  (t = true ->
   (2 <= ndim img)%nat /\ Forall (fun n => 2 <= n)%nat (shape img)) ->
  sigmas smin smax = Ok scales ->
  exists fs,
    Reference.channel_features img i e t smin smax = Ok fs /\
    length fs = (length scales * bundle_size i e t (ndim img))%nat /\
    Forall (fun a => shape a = shape (ascontiguousarray img)) fs.
Proof.
  intros Ht Hs. unfold Reference.channel_features. rewrite Hs. cbn [Py.bind].
  set (img' := ascontiguousarray (img_as_float32 img)).
  assert (shape img' = shape (ascontiguousarray img)) as Hsh'.
  { unfold img'. by rewrite !shape_ascontiguousarray, img_as_float32_shape. }
  assert (bundle_size i e t (ndim img') = bundle_size i e t (ndim img)) as Hb'.
  { unfold bundle_size. destruct t; [|done]. destruct (Ht eq_refl) as [Hk _].
    unfold ndim in *. rewrite Hsh', shape_ascontiguousarray.
    destruct (shape img); [simpl in Hk; lia | done]. }
  destruct (sequence_all_ok
    (fun s => _singlescale_basic_features_singlechannel img' s i e t)
    (fun b => length b = bundle_size i e t (ndim img) /\
              Forall (fun a => shape a = shape (ascontiguousarray img)) b)
    scales)
    as (bs & -> & Hlen & Hbs).
  { intros s _.
    destruct (singlescale_flags_ok img' s i e t) as (b & Hb & Hl & Hsh).
    - intros Htt. destruct (Ht Htt) as [Hk Hall].
      unfold ndim in *. rewrite Hsh', shape_ascontiguousarray.
      destruct (shape img); [simpl in Hk; lia | done].
    - exists b. by rewrite Hb', Hsh' in *. }
  simpl. eexists. split; [done|]. split.
  - rewrite <- Hlen. apply length_concat_uniform.
    eapply Forall_impl; [done|]. by intros b [? _].
  - apply Forall_concat. eapply Forall_impl; [done|]. by intros b [_ ?].
Qed.

Lemma array_float32_stacked (l : list (ndarray R)) (sh : list nat) :
  Forall (fun a => shape a = sh) l ->
  exists out, array_float32 l = Ok out /\
    shape out = stacked_shape (length l) sh /\ dtype_of out = float32.
Proof.
  clear FS.
  intros Hall. destruct l as [|a l]; [by eexists|].
  rewrite (array_float32_stack _ sh) by done. by eexists.
Qed.

End FeatureExtras.

Section FeatureExtraTheorems.
Context {F : Filters} {FS : FiltersSpec F}.
Local Open Scope R_scope.

Lemma combinations_elem_of (n a b : nat) :
  (a, b) ∈ combinations_with_replacement2 n <-> (a <= b < n)%nat.
Proof.
  split; [apply elem_of_combinations|]. intros Hab.
  unfold combinations_with_replacement2.
  rewrite list_elem_of_In, in_flat_map. exists a.
  split; [apply in_seq; lia|]. apply in_map, in_seq. lia.
Qed.

Lemma features_sequential_raise image mc i e t smin smax s scales err :
  (3 <=? ndim image)%nat && mc = false ->
  sigmas smin smax = Ok (s :: scales) ->
  _singlescale_basic_features_singlechannel
    (ascontiguousarray (img_as_float32 image)) s i e t = Raise err ->
  Reference.features_sequential image mc i e t smin smax = Raise err.
Proof.
  intros Hc Hs Hr.
  unfold Reference.features_sequential, Reference.channels.
  rewrite Hc. cbn [map]. rewrite sequence_singleton.
  unfold Reference.channel_features. rewrite Hs. cbn [Py.bind map Py.sequence].
  by rewrite Hr.
Qed.

(** X1. For an image with at least two axes, each of at least two
    samples, [_texture_filter] gives the eigenvalue solver the second
    differences of the image along every pair of axes [ax0 <= ax1], in
    the order of [combinations_with_replacement]: [k(k+1)/2] arrays of
    the shape of the image. *)
Theorem texture_filter_hessian_elements (g : ndarray R) :
  (2 <= ndim g)%nat -> Forall (fun n => 2 <= n)%nat (shape g) ->
  let pairs := combinations_with_replacement2 (ndim g) in
  let H_elems :=
    map (fun '(ax0, ax1) => gradient_axis (gradient_axis g ax0) ax1) pairs in
  _texture_filter g = hessian_matrix_eigvals H_elems /\
  length H_elems = (ndim g * (ndim g + 1) / 2)%nat /\
  Forall (fun e => shape e = shape g) H_elems /\
  (forall a b : nat, (a, b) ∈ pairs <-> (a <= b < ndim g)%nat).
Proof.
  intros Hk Hall pairs H_elems.
  split; [by apply texture_filter_elems|].
  split; [unfold H_elems, pairs; by rewrite length_map, length_combinations|].
  split.
  - apply Forall_forall. intros x Hx.
    apply list_elem_of_fmap in Hx as ([a b] & -> & _). done.
  - intros a b. apply combinations_elem_of.
Qed.

(** X2. With the texture flag, a single-channel image that has one axis
    only, or an axis with fewer than two samples, cannot be processed:
    the call raises ([AxisError] for a 1-D image of two samples or more,
    [ValueError] otherwise) whenever there is at least one scale. *)
Theorem texture_needs_two_samples (env : Env) (image : ndarray R)
    (multichannel intensity edges : bool) (sigma_min sigma_max : R)
    (num_workers : option Z) (choices : nat -> list nat) (scales : list R) :
  (3 <=? ndim image)%nat && multichannel = false ->
  sigmas sigma_min sigma_max = Ok scales -> scales <> [] ->
  valid_workers num_workers ->
  (forall n, shape image = [n] ->
     multiscale_basic_features env image multichannel intensity edges true
       sigma_min sigma_max num_workers choices
     = Raise (if (2 <=? n)%nat then AxisError else ValueError)) /\
  ((2 <= ndim image)%nat ->
   ~ Forall (fun n => 2 <= n)%nat (shape image) ->
   multiscale_basic_features env image multichannel intensity edges true
     sigma_min sigma_max num_workers choices
   = Raise ValueError).
Proof.
  intros Hc Hs Hne Hw. destruct scales as [|s scales]; [done|].
  split.
  - intros n Hn. rewrite multiscale_sequential by done.
    eapply features_sequential_raise; [done..|].
    unfold _singlescale_basic_features_singlechannel.
    rewrite (texture_filter_1d _ n); [done|].
    by rewrite gaussian_shape, shape_ascontiguousarray,
      img_as_float32_shape, Hn.
  - intros Hk Hall. rewrite multiscale_sequential by done.
    assert (shape (ascontiguousarray (img_as_float32 image)) = shape image)
      as Hsh.
    { rewrite shape_ascontiguousarray, img_as_float32_shape.
      unfold ndim in Hk. destruct (shape image); [simpl in Hk; lia | done]. }
    eapply features_sequential_raise; [done..|].
    unfold _singlescale_basic_features_singlechannel.
    rewrite texture_filter_small_axis; [done| |].
    + unfold ndim. by rewrite gaussian_shape, Hsh.
    + by rewrite gaussian_shape, Hsh.
Qed.

(** X3. For a single-channel image the feature stack has
    [n_scales * (intensity + edges + ndim * texture)] planes and dtype
    float32. The planes have the shape that [np.ascontiguousarray] gives
    the image: the shape of the image, and [(1,)] for a 0-d image. The
    texture flag needs at least two axes of at least two samples, the
    other flags no condition on the shape. With no plane at all the
    result has shape [(0,)]. *)
Theorem features_shape_single_channel (env : Env) (image : ndarray R)
    (multichannel intensity edges texture : bool) (sigma_min sigma_max : R)
    (num_workers : option Z) (choices : nat -> list nat) (scales : list R) :
  (3 <=? ndim image)%nat && multichannel = false ->
  (texture = true ->
   (2 <= ndim image)%nat /\ Forall (fun n => 2 <= n)%nat (shape image)) ->
  sigmas sigma_min sigma_max = Ok scales ->
  valid_workers num_workers ->
  exists out,
    multiscale_basic_features env image multichannel intensity edges texture
      sigma_min sigma_max num_workers choices = Ok out /\
    shape out
    = stacked_shape
        (length scales * bundle_size intensity edges texture (ndim image))
        (shape (ascontiguousarray image)) /\
    dtype_of out = float32.
Proof.
  intros Hc Ht Hs Hw. rewrite multiscale_sequential by done.
  unfold Reference.features_sequential, Reference.channels.
  rewrite Hc. cbn [map]. rewrite sequence_singleton.
  destruct (channel_features_ok image intensity edges texture
              sigma_min sigma_max scales Ht Hs) as (fs & -> & Hlen & Hsh).
  cbn [Py.bind concat]. rewrite app_nil_r.
  destruct (array_float32_stacked fs _ Hsh) as (out & Ho & H1 & H2).
  exists out. by rewrite Ho, H1, Hlen.
Qed.

Lemma shape_channel {A} (image : ndarray A) (c : nat) :
  shape (channel image c) = removelast (shape image).
Proof. done. Qed.

(** X4. For a multichannel image of shape [S + (C,)] with at least two
    spatial axes, each of at least two samples when the texture flag is
    set, the feature stack has
    [C * n_scales * (intensity + edges + len(S) * texture)] planes of
    shape [S]. *)
Theorem features_shape_multichannel (env : Env) (image : ndarray R)
    (sh : list nat) (n_channels : nat) (intensity edges texture : bool)
    (sigma_min sigma_max : R) (num_workers : option Z)
    (choices : nat -> list nat) (scales : list R) :
  shape image = sh ++ [n_channels] -> (2 <= length sh)%nat ->
  (texture = true -> Forall (fun n => 2 <= n)%nat sh) ->
  sigmas sigma_min sigma_max = Ok scales ->
  valid_workers num_workers ->
  exists out,
    multiscale_basic_features env image true intensity edges texture
      sigma_min sigma_max num_workers choices = Ok out /\
    shape out
    = stacked_shape
        (n_channels *
         (length scales * bundle_size intensity edges texture (length sh)))
        sh /\
    dtype_of out = float32.
Proof.
  intros Hsh Hk Ht Hs Hw. rewrite multiscale_sequential by done.
  unfold Reference.features_sequential, Reference.channels, ndim.
  rewrite Hsh, length_app. cbn [length].
  rewrite (proj2 (Nat.leb_le 3 (length sh + 1))) by lia. cbn [andb].
  rewrite last_last.
  destruct (sequence_all_ok
    (fun img => Reference.channel_features img intensity edges texture
                  sigma_min sigma_max)
    (fun fs => length fs
               = (length scales *
                  bundle_size intensity edges texture (length sh))%nat /\
               Forall (fun a => shape a = sh) fs)
    (map (channel image) (seq 0 n_channels)))
    as (per & -> & Hlen & Hper).
  { intros img Himg. apply list_elem_of_fmap in Himg as (c & -> & _).
    assert (shape (channel image c) = sh) as Hc
      by (by rewrite shape_channel, Hsh, removelast_last).
    destruct (channel_features_ok (channel image c) intensity edges texture
                sigma_min sigma_max scales) as (fs & Hfs & Hl & Hf);
      [| done |].
    - intros Htt. unfold ndim. rewrite Hc. split; [done | by apply Ht].
    - exists fs. unfold ndim in Hl.
      rewrite shape_ascontiguousarray, Hc in Hf. rewrite Hc in Hl.
      split; [done|]. destruct sh; [simpl in Hk; lia | done]. }
  cbn [Py.bind].
  assert (Forall (fun a => shape a = sh) (concat per)) as Hall.
  { apply Forall_concat. eapply Forall_impl; [done|]. by intros fs [_ ?]. }
  destruct (array_float32_stacked (concat per) sh Hall) as (out & Ho & H1 & H2).
  exists out. rewrite Ho, H1. split; [done|]. split; [|done].
  f_equal. rewrite length_map, length_seq in Hlen. rewrite <- Hlen.
  apply length_concat_uniform. eapply Forall_impl; [done|]. by intros fs [? _].
Qed.

Lemma mutiscale_rejects_workers env img i e t smin smax w ch scales :
  sigmas smin smax = Ok scales ->
  (has_dask env = false /\ (w <= 0)%Z) \/
  (has_dask env = true /\ (w < 0)%Z /\ scales <> []) ->
  _mutiscale_basic_features_singlechannel env img i e t smin smax (Some w) ch
  = Raise ValueError.
Proof.
  intros Hs Hw. unfold _mutiscale_basic_features_singlechannel.
  rewrite Hs. cbn [Py.bind].
  destruct Hw as [[-> Hw] | (-> & Hw & Hne)].
  - cbn [ThreadPoolExecutor]. by rewrite (proj2 (Z.leb_le w 0) Hw).
  - destruct scales as [|s scales]; [done|]. cbn [map dask_threads].
    rewrite (proj2 (Z.eqb_neq w 0)) by lia.
    by rewrite (proj2 (Z.ltb_lt w 0) Hw).
Qed.


(** X5. A worker count that the thread pool refuses makes the call
    raise [ValueError] once the scale sequence was computed, for a
    single-channel image and for an image that is split into at least
    one channel. Without dask the pool is [ThreadPoolExecutor], created
    before any task, which refuses zero and negative counts. With dask
    the pool is created when there is a task to compute, and refuses
    negative counts. *)
Theorem nonpositive_workers_rejected (env : Env) (image : ndarray R)
    (multichannel intensity edges texture : bool) (sigma_min sigma_max : R)
    (w : Z) (choices : nat -> list nat) (scales : list R) :
  sigmas sigma_min sigma_max = Ok scales ->
  ((3 <=? ndim image)%nat && multichannel = true ->
   (0 < List.last (shape image) 0)%nat) ->
  (has_dask env = false /\ (w <= 0)%Z) \/
  (has_dask env = true /\ (w < 0)%Z /\ scales <> []) ->
  multiscale_basic_features env image multichannel intensity edges texture
    sigma_min sigma_max (Some w) choices = Raise ValueError.
Proof.
  intros Hs Hc Hw. unfold multiscale_basic_features.
  destruct ((3 <=? ndim image)%nat && multichannel).
  - specialize (Hc eq_refl).
    destruct (List.last (shape image) 0%nat) as [|n]; [lia|].
    cbn [seq map Py.sequence].
    by rewrite (mutiscale_rejects_workers _ _ _ _ _ _ _ _ _ scales).
  - by rewrite (mutiscale_rejects_workers _ _ _ _ _ _ _ _ _ scales).
Qed.

End FeatureExtraTheorems.


(** * Further properties of fit and predict *)

Section SegmenterExtras.
Context {St : Type} {C : Classifier St}.

Lemma fit_segmenter_steps (st : list (pyobj St)) (labels clf : loc)
    (lab : ndarray Z) (features : ndarray R) (n_features : nat) (c : St) :
  st !! labels = Some (IntArray lab) ->
  st !! clf = Some (ClassifierObj c) ->
  shape features = n_features :: shape lab ->
  fit_segmenter labels features clf st =
    match clf_fit c (map (pixel_row features) (positions (positive_mask lab)))
            (List.filter (fun x => (0 <? x)%Z) (data lab)) with
    | inl e => (Raise e, st)
    | inr c' =>
        let st1 := <[clf := ClassifierObj c']> st in
        match clf_predict c'
                (map (pixel_row features) (positions (zero_mask lab))) with
        | inl e => (Raise e, st1)
        | inr predicted =>
            match setitem_mask (data lab) (zero_mask lab) predicted with
            | inl e => (Raise e, st1 ++ [IntArray lab])
            | inr filled =>
                (Ok (length st, clf),
                 <[length st :=
                     IntArray (mk_ndarray (dtype_of lab) (shape lab) filled)]>
                   (st1 ++ [IntArray lab]))
            end
        end
    end.
Proof.
  intros Hlab Hclf Hsh.
  unfold fit_segmenter, bind, read_array, read_classifier, lift, write,
    alloc, ret, mask_rows.
  rewrite Hlab, Hsh, bool_decide_eq_true_2 by done.
  rewrite Hclf.
  destruct (clf_fit _ _ _) as [e|c']; [done|].
  destruct (clf_predict _ _) as [e|predicted]; [done|].
  rewrite length_insert.
  by destruct (setitem_mask _ _ _).
Qed.

Lemma length_positions_cons b mask :
  length (positions (b :: mask))
  = ((if b then 1 else 0) + length (positions mask))%nat.
Proof. rewrite positions_cons, length_app, length_map. by destruct b. Qed.

Lemma scatter_broadcast (l : list Z) (v : Z) :
  scatter (map (fun x => (x =? 0)%Z) l) l
    (replicate (length (positions (map (fun x => (x =? 0)%Z) l))) v)
  = map (fun x => if (x =? 0)%Z then v else x) l.
Proof.
  induction l as [|x l IH]; [done|].
  cbn [map]. rewrite length_positions_cons.
  destruct (x =? 0)%Z; simpl; by rewrite IH.
Qed.

Lemma setitem_mask_single (l : list Z) (v : Z) :
  setitem_mask l (map (fun x => (x =? 0)%Z) l) [v]
  = Ok (map (fun x => if (x =? 0)%Z then v else x) l).
Proof.
  unfold setitem_mask. rewrite <- scatter_broadcast.
  destruct (length [v] =? _)%nat eqn:E; [|done].
  apply Nat.eqb_eq in E. by rewrite <- E.
Qed.

Lemma scatter_nonzero (l vals : list Z) :
  Forall (fun v => v <> 0%Z) vals ->
  length vals = length (positions (map (fun x => (x =? 0)%Z) l)) ->
  Forall (fun v => v <> 0%Z) (scatter (map (fun x => (x =? 0)%Z) l) l vals).
Proof.
  revert vals. induction l as [|x l IH]; intros vals Hv Hlen; [done|].
  cbn [map] in *. rewrite length_positions_cons in Hlen.
  destruct (Z.eqb_spec x 0) as [->|Hx]; simpl.
  - destruct vals as [|v vals]; [done|].
    apply Forall_cons in Hv as [Hv0 Hv]. constructor; [done|].
    apply IH; [done | simpl in Hlen; lia].
  - constructor; [done|]. by apply IH.
Qed.

Lemma setitem_mask_count (dst : list Z) mask (vals : list Z) :
  length vals <> length (positions mask) -> length vals <> 1%nat ->
  setitem_mask dst mask vals = Raise ValueError.
Proof.
  intros H1 H2. unfold setitem_mask.
  rewrite (proj2 (Nat.eqb_neq _ _) H1).
  by destruct vals as [|? [|? ?]].
Qed.

Lemma setitem_mask_exact (dst : list Z) mask (vals : list Z) :
  length vals = length (positions mask) ->
  setitem_mask dst mask vals = Ok (scatter mask dst vals).
Proof. intros H. unfold setitem_mask. by rewrite H, Nat.eqb_refl. Qed.

Lemma positions_none (l : list Z) :
  Forall (fun v => v <> 0%Z) l ->
  positions (map (fun x => (x =? 0)%Z) l) = [].
Proof.
  induction 1 as [|x l Hx _ IH]; [done|].
  cbn [map]. rewrite positions_cons, IH.
  by rewrite (proj2 (Z.eqb_neq x 0) Hx).
Qed.

Lemma positions_positive_none (l : list Z) :
  Forall (fun v => (v <= 0)%Z) l ->
  positions (map (fun x => (0 <? x)%Z) l) = [] /\
  List.filter (fun x => (0 <? x)%Z) l = [].
Proof.
  induction 1 as [|x l Hx _ [IH1 IH2]]; [done|].
  cbn [map List.filter]. rewrite positions_cons, IH1, IH2.
  by rewrite (proj2 (Z.ltb_ge 0 x) Hx).
Qed.

Lemma scatter_nil_vals mask (dst : list Z) :
  positions mask = [] -> scatter mask dst [] = dst.
Proof.
  revert dst. induction mask as [|b mask IH]; intros dst Hp;
    [by destruct dst|].
  destruct dst as [|x dst]; [by destruct b|].
  destruct b; [done|]. simpl. f_equal. apply IH.
  rewrite positions_cons in Hp. simpl in Hp.
  by destruct (positions mask).
Qed.

End SegmenterExtras.

Section FitSegmenterFacts.
Context {St : Type} {C : Classifier St}.
Context (st : list (pyobj St)) (labels clf : loc) (lab : ndarray Z)
        (features : ndarray R) (n_features : nat) (c : St).
Context (Hlab : st !! labels = Some (IntArray lab))
        (Hclf : st !! clf = Some (ClassifierObj c))
        (Hsh : shape features = n_features :: shape lab).

(** The arguments of [clf.fit] and of the [clf.predict] that follows. *)
Let X := map (pixel_row features) (positions (positive_mask lab)).
Let y := List.filter (fun x => (0 <? x)%Z) (data lab).
Let X0 := map (pixel_row features) (positions (zero_mask lab)).

(** X8. The training set that [fit_segmenter] gives to [clf.fit] has as
    many rows as labels; all labels are positive; every row has one
    entry per feature plane; the row and the label of a labelled pixel
    are at the same index, the rank of that pixel among the labelled
    ones. An exception of [clf.fit] is raised by [fit_segmenter] and the
    store is left as it was. *)
Theorem training_set_alignment :
  length X = length y /\
  Forall (fun v => (0 < v)%Z) y /\
  Forall (fun row => length row = n_features) X /\
  (forall (p : nat) v, data lab !! p = Some v -> (0 < v)%Z ->
     X !! rank (positive_mask lab) p = Some (pixel_row features p) /\
     y !! rank (positive_mask lab) p = Some v) /\
  (forall e, clf_fit c X y = Raise e ->
     fit_segmenter labels features clf st = (Raise e, st)).
Proof.
  split; [| split; [| split; [| split]]].
  - unfold X, y. rewrite filter_positions. by rewrite !length_map.
  - apply Forall_forall. intros v Hv. unfold y in Hv.
    apply list_elem_of_In, filter_In in Hv as [_ Hv]. by apply Z.ltb_lt.
  - apply Forall_forall. intros row Hrow. unfold X in Hrow.
    apply list_elem_of_fmap in Hrow as (p & -> & _).
    unfold pixel_row. rewrite Hsh. by rewrite length_map, length_seq.
  - intros p v Hp Hv.
    pose proof (positive_mask_nth lab p v Hp) as Hm.
    rewrite (proj2 (Z.ltb_lt 0 v) Hv) in Hm. split.
    + unfold X. by rewrite list_lookup_fmap, positions_lookup.
    + unfold y. rewrite filter_positions. fold (positive_mask lab).
      rewrite list_lookup_fmap, positions_lookup by done. simpl.
      f_equal. by apply nth_lookup_Some.
  - intros e He. rewrite (fit_segmenter_steps st labels clf lab features
                            n_features c) by done.
    fold X y. by rewrite He.
Qed.

(** X9. When [clf.fit] succeeded and [clf.predict] raises, or returns
    neither one value nor one value per unlabelled pixel, [fit_segmenter]
    raises (in the second case [ValueError]); the classifier stays
    fitted and the label array is unchanged. *)
Theorem fit_segmenter_failure_after_fit (c' : St) :
  clf_fit c X y = Ok c' ->
  let st1 := <[clf := ClassifierObj c']> st in
  st1 !! labels = Some (IntArray lab) /\
  (forall e, clf_predict c' X0 = Raise e ->
     fit_segmenter labels features clf st = (Raise e, st1)) /\
  (forall predicted, clf_predict c' X0 = Ok predicted ->
     length predicted <> length (positions (zero_mask lab)) ->
     length predicted <> 1%nat ->
     fit_segmenter labels features clf st
     = (Raise ValueError, st1 ++ [IntArray lab])).
Proof.
  intros Hfit st1. split; [| split].
  - unfold st1. rewrite list_lookup_insert_ne; [done|].
    intros ->. congruence.
  - intros e He. rewrite (fit_segmenter_steps st labels clf lab features
                            n_features c) by done.
    fold X y X0. by rewrite Hfit, He.
  - intros predicted Hp H1 H2.
    rewrite (fit_segmenter_steps st labels clf lab features n_features c)
      by done.
    fold X y X0. rewrite Hfit, Hp. cbn zeta.
    by rewrite setitem_mask_count.
Qed.

(** X10. A prediction of a single value is broadcast: every unlabelled
    pixel of the output holds it, every other pixel its label. *)
Theorem fit_segmenter_broadcast (c' : St) (v : Z) :
  clf_fit c X y = Ok c' -> clf_predict c' X0 = Ok [v] ->
  fit_segmenter labels features clf st
  = (Ok (length st, clf),
     <[length st :=
         IntArray (mk_ndarray (dtype_of lab) (shape lab)
                     (map (fun x => if (x =? 0)%Z then v else x)
                          (data lab)))]>
       (<[clf := ClassifierObj c']> st ++ [IntArray lab])).
Proof.
  intros Hfit Hp.
  rewrite (fit_segmenter_steps st labels clf lab features n_features c)
    by done.
  fold X y X0. rewrite Hfit, Hp. cbn zeta.
  unfold zero_mask. by rewrite setitem_mask_single.
Qed.

(** X12. A successful [fit_segmenter] adds exactly one object to the
    store, the output; it updates the classifier and leaves every other
    object as it was. *)
Theorem fit_segmenter_frame (c' : St) (predicted : list Z) :
  clf_fit c X y = Ok c' -> clf_predict c' X0 = Ok predicted ->
  length predicted = length (positions (zero_mask lab)) ->
  exists st',
    fit_segmenter labels features clf st = (Ok (length st, clf), st') /\
    length st' = S (length st) /\
    st' !! clf = Some (ClassifierObj c') /\
    forall l : loc, l <> clf -> (l < length st)%nat -> st' !! l = st !! l.
Proof.
  intros Hfit Hp Hlen.
  pose proof (lookup_lt_Some _ _ _ Hclf) as Hlt.
  eexists. split; [by eapply fit_segmenter_run|]. split; [| split].
  - rewrite length_insert, length_app, length_insert. simpl. lia.
  - rewrite list_lookup_insert_ne by lia.
    rewrite lookup_app_l by (by rewrite length_insert).
    by rewrite list_lookup_insert_eq.
  - intros l Hne Hl.
    rewrite list_lookup_insert_ne by lia.
    rewrite lookup_app_l by (by rewrite length_insert).
    by rewrite list_lookup_insert_ne.
Qed.

(** X13. When the classifier predicts classes other than 0, no pixel of
    the output is unlabelled. *)
Theorem fit_segmenter_labels_every_pixel (c' : St) (predicted : list Z) :
  clf_fit c X y = Ok c' -> clf_predict c' X0 = Ok predicted ->
  length predicted = length (positions (zero_mask lab)) ->
  Forall (fun v => v <> 0%Z) predicted ->
  exists out st',
    fit_segmenter labels features clf st = (Ok (length st, clf), st') /\
    st' !! length st = Some (IntArray out) /\
    Forall (fun v => v <> 0%Z) (data out).
Proof.
  intros Hfit Hp Hlen Hnz.
  eexists _, _. split; [by eapply fit_segmenter_run|]. split.
  - apply list_lookup_insert_eq.
    rewrite length_app, length_insert. simpl. lia.
  - simpl. by apply scatter_nonzero.
Qed.

(** X15. When no pixel is unlabelled, [clf.predict] is still called, on
    a matrix without rows; its exception is raised, and when it returns
    no value the output is a copy of the labels. When no pixel is
    labelled, [clf.fit] is called on an empty training set and its
    exception is raised. *)
Theorem fit_segmenter_empty_sets :
  (Forall (fun v => v <> 0%Z) (data lab) ->
   X0 = [] /\
   forall c', clf_fit c X y = Ok c' ->
     (forall e, clf_predict c' [] = Raise e ->
        fit_segmenter labels features clf st
        = (Raise e, <[clf := ClassifierObj c']> st)) /\
     (clf_predict c' [] = Ok [] ->
      fit_segmenter labels features clf st
      = (Ok (length st, clf),
         <[length st :=
             IntArray (mk_ndarray (dtype_of lab) (shape lab) (data lab))]>
           (<[clf := ClassifierObj c']> st ++ [IntArray lab])))) /\
  (Forall (fun v => (v <= 0)%Z) (data lab) ->
   X = [] /\ y = [] /\
   forall e, clf_fit c [] [] = Raise e ->
     fit_segmenter labels features clf st = (Raise e, st)).
Proof.
  split.
  - intros Hnz. pose proof (positions_none (data lab) Hnz) as Hpos.
    assert (X0 = []) as HX0 by (unfold X0, zero_mask; by rewrite Hpos).
    split; [done|]. intros c' Hfit. split.
    + intros e He.
      rewrite (fit_segmenter_steps st labels clf lab features n_features c)
        by done.
      fold X y X0. by rewrite Hfit, HX0, He.
    + intros Hp.
      rewrite (fit_segmenter_steps st labels clf lab features n_features c)
        by done.
      fold X y X0. rewrite Hfit, HX0, Hp. cbn zeta.
      rewrite setitem_mask_exact by (unfold zero_mask; by rewrite Hpos).
      by rewrite scatter_nil_vals.
  - intros Hnp.
    destruct (positions_positive_none (data lab) Hnp) as [Hpos Hy].
    assert (X = []) as HX by (unfold X, positive_mask; by rewrite Hpos).
    split; [done|]. split; [done|]. intros e He.
    rewrite (fit_segmenter_steps st labels clf lab features n_features c)
      by done.
    fold X y. rewrite HX. unfold y. by rewrite Hy, He.
Qed.

End FitSegmenterFacts.

Section SegmenterErrors.
Context {St : Type} {C : Classifier St}.


(** X14. [predict_segmenter] never changes the store. A stack without
    axes is refused with [IndexError], one with a single axis with
    [TypeError], both before the classifier is used; an object without
    [predict] gives [AttributeError]; an exception of [clf.predict] is
    raised as it is; a prediction whose size is not the number of pixels
    is refused with [ValueError]. *)
Theorem predict_segmenter_errors (st : list (pyobj St)) (clf : loc)
    (features : ndarray R) :
  snd (predict_segmenter features clf st) = st /\
  (shape features = [] ->
   fst (predict_segmenter features clf st) = Raise IndexError) /\
  (forall n, shape features = [n] ->
   fst (predict_segmenter features clf st) = Raise TypeError) /\
  (forall n sh, shape features = n :: sh -> sh <> [] ->
     (forall a, st !! clf = Some (IntArray a) ->
        fst (predict_segmenter features clf st) = Raise AttributeError) /\
     (forall c, st !! clf = Some (ClassifierObj c) ->
        let X := map (pixel_row features) (seq 0 (prod sh)) in
        (forall e, clf_predict c X = Raise e ->
           fst (predict_segmenter features clf st) = Raise e) /\
        (forall predicted, clf_predict c X = Ok predicted ->
           length predicted <> prod sh ->
           fst (predict_segmenter features clf st) = Raise ValueError))).
Proof.
  split; [| split; [| split]].
  - unfold predict_segmenter, bind, read_classifier, raise, ret.
    destruct (shape features) as [|n [|m sh]]; [done..|].
    destruct (st !! clf) as [[a|c]|]; [done| |done].
    destruct (clf_predict _ _) as [[]|p]; try done.
    by destruct (_ =? _)%nat.
  - intros Hs. unfold predict_segmenter. by rewrite Hs.
  - intros n Hs. unfold predict_segmenter. by rewrite Hs.
  - intros n sh Hs Hne. unfold predict_segmenter. rewrite Hs.
    destruct sh as [|m sh]; [done|].
    unfold bind, read_classifier, raise, ret. split.
    + intros a Ha. by rewrite Ha.
    + intros c Hc. rewrite Hc. split.
      * intros e He. rewrite He. by destruct e.
      * intros p Hp Hl. rewrite Hp.
        by rewrite (proj2 (Nat.eqb_neq _ _) Hl).
Qed.

End SegmenterErrors.

(** * Further properties of the segmenter object *)

Section SegmenterObjectExtras.
Import TrainableSegmenter.
Context {F : Filters} {St : Type} {C : Classifier St}.
Variable env : Env.
Variable choices : nat -> list nat.


(** X17. A successful [fit] on an object without cached features keeps
    the features of the image it was given, fits the classifier in
    place, and sets [segmented_image] to a new array of the shape of the
    labels in which every pixel with a label other than 0 holds its
    label; the label array is unchanged. *)
Theorem fit_stores_segmentation (labels : loc) (image : option (ndarray R))
    (s : self) (st : list (pyobj St)) (feats : ndarray R) (lab : ndarray Z)
    (n_features : nat) (c c' : St) (predicted : list Z) :
  features s = None ->
  call_features_func env choices (default Default (features_func s)) image
    = Ok feats ->
  st !! labels = Some (IntArray lab) ->
  st !! clf s = Some (ClassifierObj c) ->
  shape feats = n_features :: shape lab ->
  clf_fit c (map (pixel_row feats) (positions (positive_mask lab)))
    (List.filter (fun x => (0 <? x)%Z) (data lab)) = Ok c' ->
  clf_predict c' (map (pixel_row feats) (positions (zero_mask lab)))
    = Ok predicted ->
  length predicted = length (positions (zero_mask lab)) ->
  exists out s' st',
    fit env choices labels image s st = (Ok tt, (s', st')) /\
    clf s' = clf s /\
    features s' = Some feats /\
    segmented_image s' = Some (length st) /\
    st' !! length st = Some (IntArray out) /\
    st' !! labels = Some (IntArray lab) /\
    st' !! clf s = Some (ClassifierObj c') /\
    shape out = shape lab /\
    forall (p : nat) v,
      data lab !! p = Some v -> v <> 0%Z -> data out !! p = Some v.
Proof.
  intros Hn Hf Hlab Hclf Hsh Hfit Hp Hlen.
  pose proof (lookup_lt_Some _ _ _ Hlab) as Hl1.
  pose proof (lookup_lt_Some _ _ _ Hclf) as Hl2.
  assert (labels <> clf s) as Hne by (intros E; rewrite E in Hlab; congruence).
  eexists (mk_ndarray (dtype_of lab) (shape lab)
             (scatter (zero_mask lab) (data lab) predicted)), _, _.
  split.
  - unfold fit, compute_features. rewrite Hn, Hf. cbn.
    erewrite fit_segmenter_run by done. done.
  - cbn. repeat split; try done.
    + apply list_lookup_insert_eq.
      rewrite length_app, length_insert. simpl. lia.
    + rewrite list_lookup_insert_ne by lia.
      rewrite lookup_app_l by (by rewrite length_insert).
      by rewrite list_lookup_insert_ne.
    + rewrite list_lookup_insert_ne by lia.
      rewrite lookup_app_l by (by rewrite length_insert).
      by rewrite list_lookup_insert_eq.
    + intros p v Hv Hnz. rewrite scatter_lookup_false; [done|].
      rewrite (zero_mask_nth lab p v Hv). by apply Z.eqb_neq.
Qed.

(** X18. [compute_features] replaces the cache by the features of its
    image and changes nothing else but [features_func]; a [fit] that
    follows trains on these features whatever image it is given. When
    the feature function raises, the cache is left as it was. *)
Theorem compute_features_then_fit (image : option (ndarray R)) (s : self)
    (st : list (pyobj St)) :
  let f := default Default (features_func s) in
  (forall feats, call_features_func env choices f image = Ok feats ->
     let s1 := mk_self (clf s) (Some f) (Some feats) (segmented_image s) in
     compute_features env choices image s st = (Ok tt, (s1, st)) /\
     forall labels image',
       fit env choices labels image' s1 st = train labels feats s1 st) /\
  (forall e, call_features_func env choices f image = Raise e ->
     compute_features env choices image s st
     = (Raise e,
        (mk_self (clf s) (Some f) (features s) (segmented_image s), st))).
Proof.
  intros f. split.
  - intros feats Hf s1. split.
    + unfold compute_features. fold f. by rewrite Hf.
    + intros labels image'. unfold fit, train. cbn.
      by destruct (fit_segmenter labels feats (clf s) st) as [[e|[o c]] st'].
  - intros e He. unfold compute_features. fold f. by rewrite He.
Qed.

End SegmenterObjectExtras.

(** * Examples for the further properties *)


Section ExtraWitnesses.
Local Open Scope R_scope.
Import TrainableSegmenter.

Lemma texture_filter_hessian_elements_witness :
  _texture_filter (F := plain_filters) image_2x2
  = @hessian_matrix_eigvals plain_filters
      (map (fun '(ax0, ax1) =>
              gradient_axis (gradient_axis image_2x2 ax0) ax1)
           (combinations_with_replacement2 (ndim image_2x2))).
Proof.
  apply (texture_filter_hessian_elements (F := plain_filters) image_2x2).
  - unfold ndim. simpl. lia.
  - simpl. repeat constructor.
Defined.

Lemma texture_needs_two_samples_witness :
  multiscale_basic_features (F := plain_filters) example_env image_1x2
    true true true true 1 4 None (fun _ => []) = Raise ValueError.
Proof.
  apply (proj2 (texture_needs_two_samples (FS := plain_filters_spec)
                  example_env image_1x2 true true true 1 4 None
                  (fun _ => []) [4; 2; 1]
                  eq_refl sigmas_1_4 ltac:(discriminate) I)).
  - unfold ndim. simpl. lia.
  - simpl. intros H. apply Forall_cons in H as [H _]. lia.
Defined.

Lemma features_shape_single_channel_witness :
  exists out,
    multiscale_basic_features (F := plain_filters) example_env image_0d
      true true false false 1 4 None (fun _ => []) = Ok out /\
    shape out
    = stacked_shape
        (length [4; 2; 1] * bundle_size true false false (ndim image_0d))
        (shape (ascontiguousarray image_0d)) /\
    dtype_of out = float32.
Proof.
  apply (features_shape_single_channel (FS := plain_filters_spec));
    [reflexivity | discriminate | apply sigmas_1_4 | exact I].
Defined.

Lemma features_shape_multichannel_witness :
  exists out,
    multiscale_basic_features (F := plain_filters) example_env image_2x2x2
      true true true true 1 4 None (fun _ => []) = Ok out /\
    shape out
    = stacked_shape
        (2 * (length [4; 2; 1] * bundle_size true true true
                (length [2; 2]%nat))) [2; 2]%nat /\
    dtype_of out = float32.
Proof.
  apply (features_shape_multichannel (FS := plain_filters_spec));
    [reflexivity | simpl; lia | | apply sigmas_1_4 | exact I].
  intros _. repeat constructor.
Defined.

Lemma nonpositive_workers_rejected_witness :
  multiscale_basic_features (F := plain_filters) example_env image_2x2x2
    true true true true 1 4 (Some 0%Z) (fun _ => []) = Raise ValueError /\
  multiscale_basic_features (F := plain_filters) dask_env image_2x2
    true true true true 1 4 (Some (-1)%Z) (fun _ => []) = Raise ValueError.
Proof.
  split.
  - apply (nonpositive_workers_rejected (F := plain_filters) example_env
             image_2x2x2 true true true true 1 4 0 (fun _ => []) [4; 2; 1]);
      [apply sigmas_1_4 | intros _; simpl; lia | left; split; [done | lia]].
  - apply (nonpositive_workers_rejected (F := plain_filters) dask_env
             image_2x2 true true true true 1 4 (-1) (fun _ => []) [4; 2; 1]);
      [apply sigmas_1_4 | discriminate |
       right; split; [done | split; [lia | discriminate]]].
Defined.



Lemma training_set_alignment_witness :
  length (map (pixel_row example_features)
            (positions (positive_mask example_labels)))
  = length (List.filter (fun x => (0 <? x)%Z) (data example_labels)).
Proof.
  apply (training_set_alignment (C := constant_classifier 7) example_store
           0 1 example_labels example_features 1 false
           eq_refl eq_refl eq_refl).
Defined.

Lemma fit_segmenter_failure_after_fit_witness :
  fit_segmenter (C := answering_classifier (Raise TypeError)) 0
    example_features_3 1 example_store_3
  = (Raise TypeError, <[1%nat := ClassifierObj true]> example_store_3) /\
  fit_segmenter (C := answering_classifier (Ok [7; 7; 7]%Z)) 0
    example_features_3 1 example_store_3
  = (Raise ValueError,
     <[1%nat := ClassifierObj true]> example_store_3
     ++ [IntArray example_labels_3]).
Proof.
  split.
  - apply (proj1 (proj2
      (fit_segmenter_failure_after_fit
         (C := answering_classifier (Raise TypeError)) example_store_3
         0 1 example_labels_3 example_features_3 1 false
         eq_refl eq_refl eq_refl true eq_refl))).
    reflexivity.
  - apply (proj2 (proj2
      (fit_segmenter_failure_after_fit
         (C := answering_classifier (Ok [7; 7; 7]%Z)) example_store_3
         0 1 example_labels_3 example_features_3 1 false
         eq_refl eq_refl eq_refl true eq_refl)) [7; 7; 7]%Z);
      [reflexivity | simpl; lia | simpl; lia].
Defined.

Lemma fit_segmenter_broadcast_witness :
  fit_segmenter (C := answering_classifier (Ok [7]%Z)) 0
    example_features_3 1 example_store_3
  = (Ok (length example_store_3, 1%nat),
     <[length example_store_3 :=
         IntArray (mk_ndarray (dtype_of example_labels_3)
                     (shape example_labels_3)
                     (map (fun x => if (x =? 0)%Z then 7%Z else x)
                          (data example_labels_3)))]>
       (<[1%nat := ClassifierObj true]> example_store_3
        ++ [IntArray example_labels_3])).
Proof.
  apply (fit_segmenter_broadcast (C := answering_classifier (Ok [7]%Z))
           example_store_3 0 1 example_labels_3 example_features_3 1 false
           eq_refl eq_refl eq_refl true 7 eq_refl eq_refl).
Defined.

Lemma fit_segmenter_frame_witness :
  exists st',
    fit_segmenter (C := constant_classifier 7) 0 example_features 1
      example_store = (Ok (length example_store, 1%nat), st') /\
    length st' = S (length example_store) /\
    st' !! 1%nat = Some (ClassifierObj true) /\
    forall l : loc, l <> 1%nat -> (l < length example_store)%nat ->
      st' !! l = example_store !! l.
Proof.
  apply (fit_segmenter_frame (C := constant_classifier 7) example_store
           0 1 example_labels example_features 1 false
           eq_refl eq_refl eq_refl true [7%Z] eq_refl eq_refl eq_refl).
Defined.

Lemma fit_segmenter_labels_every_pixel_witness :
  exists out st',
    fit_segmenter (C := constant_classifier 7) 0 example_features 1
      example_store = (Ok (length example_store, 1%nat), st') /\
    st' !! length example_store = Some (IntArray out) /\
    Forall (fun v => v <> 0%Z) (data out).
Proof.
  apply (fit_segmenter_labels_every_pixel (C := constant_classifier 7)
           example_store 0 1 example_labels example_features 1 false
           eq_refl eq_refl eq_refl true [7%Z] eq_refl eq_refl eq_refl).
  repeat constructor. lia.
Defined.

Lemma fit_segmenter_empty_sets_witness :
  fit_segmenter (C := constant_classifier 7) 0 example_features 1
    [IntArray (mk_ndarray int64 [2]%nat [1; 2]%Z); ClassifierObj false]
  = (Ok (2%nat, 1%nat),
     [IntArray (mk_ndarray int64 [2]%nat [1; 2]%Z); ClassifierObj true;
      IntArray (mk_ndarray int64 [2]%nat [1; 2]%Z)]).
Proof.
  apply (proj2 (proj2 (proj1
           (fit_segmenter_empty_sets (C := constant_classifier 7)
              [IntArray (mk_ndarray int64 [2]%nat [1; 2]%Z);
               ClassifierObj false]
              0 1 (mk_ndarray int64 [2]%nat [1; 2]%Z) example_features 1
              false eq_refl eq_refl eq_refl)
           ltac:(simpl; repeat constructor; lia)) true eq_refl)).
  reflexivity.
Defined.


Lemma predict_segmenter_errors_witness :
  fst (predict_segmenter (C := constant_classifier 7)
         (mk_ndarray float32 [3]%nat [1; 2; 3]) 1 example_store)
  = Raise TypeError.
Proof.
  apply (proj1 (proj2 (proj2
           (predict_segmenter_errors (C := constant_classifier 7)
              example_store 1 (mk_ndarray float32 [3]%nat [1; 2; 3]))))
           3%nat).
  reflexivity.
Defined.


Lemma fit_stores_segmentation_witness :
  exists out s' st',
    fit (F := plain_filters) (C := constant_classifier 7) example_env
      (fun _ => []) 0 (Some image_a) (__init__ 1 (Some identity_features))
      example_store = (Ok tt, (s', st')) /\
    clf s' = 1%nat /\
    features s' = Some (mk_ndarray float32 [1; 2]%nat [1; 2]) /\
    segmented_image s' = Some (length example_store) /\
    st' !! length example_store = Some (IntArray out) /\
    st' !! 0%nat = Some (IntArray example_labels) /\
    st' !! 1%nat = Some (ClassifierObj true) /\
    shape out = shape example_labels /\
    forall (p : nat) v,
      data example_labels !! p = Some v -> v <> 0%Z ->
      data out !! p = Some v.
Proof.
  apply (fit_stores_segmentation (F := plain_filters)
           (C := constant_classifier 7) example_env (fun _ => [])
           0 (Some image_a) (__init__ 1 (Some identity_features))
           example_store (mk_ndarray float32 [1; 2]%nat [1; 2])
           example_labels 1 false true [7%Z]); reflexivity.
Defined.

Lemma compute_features_then_fit_witness :
  compute_features (F := plain_filters) (St := bool)
    example_env (fun _ => []) (Some image_b)
    (mk_self 1 (Some identity_features) (Some example_features) None)
    example_store
  = (Ok tt,
     (mk_self 1 (Some identity_features)
        (Some (mk_ndarray float32 [1; 2]%nat [3; 4])) None,
      example_store)) /\
  fit (F := plain_filters) (C := constant_classifier 7)
    example_env (fun _ => []) 0 (Some image_a)
    (mk_self 1 (Some identity_features)
       (Some (mk_ndarray float32 [1; 2]%nat [3; 4])) None)
    example_store
  = train (C := constant_classifier 7) 0
      (mk_ndarray float32 [1; 2]%nat [3; 4])
      (mk_self 1 (Some identity_features)
         (Some (mk_ndarray float32 [1; 2]%nat [3; 4])) None)
      example_store.
Proof.
  destruct (proj1 (compute_features_then_fit (F := plain_filters)
                     (C := constant_classifier 7)
                     example_env (fun _ => []) (Some image_b)
                     (mk_self 1 (Some identity_features)
                        (Some example_features) None)
                     example_store)
              (mk_ndarray float32 [1; 2]%nat [3; 4]) eq_refl) as [H1 H2].
  split; [exact H1 | exact (H2 0%nat (Some image_a))].
Defined.

End ExtraWitnesses.
